(** * expotion-core: the plugin registry and its lifecycle

    A shallow embedding of [expotion_core/plugin.py] and
    [expotion_core/loader.py], and the properties of the registry, the
    dependency orderer and the lifecycle coordinator proved over it.

    Conventions of the embedding.
    - A Python [dict] is an insertion-ordered association list ([dict]);
      iteration order is the list order, as in Python 3.7+.
    - A plugin instance is a reference ([plugin_ref]): the identity of the
      object together with its class.  The attributes the code mutates
      ([_app], [_enabled]) live in a heap indexed by the identity, so that the
      registry, the list returned by the orderer and a caller holding a
      reference all see the same object.
    - A hook of a plugin is user code.  It is modelled by its outcome: it
      returns, or it raises an [Exception] with a message.  Every call of a
      lifecycle hook is recorded in a trace.  Hooks that reach back into the loader, and
      exceptions outside the [Exception] hierarchy, are outside the model.
    - Plugin instances keep [object]'s truth value (the base class defines
      neither [__bool__] nor [__len__]), so [if plugin:] tests for [None].
    - Calls to [logger] have no effect on the loader and are left out. *)

From Stdlib Require Import Ascii String.
From stdpp Require Import base tactics option list sets gmap strings.

Set Warnings "-clear-no-such-hyp".

(** ** Python dictionaries, insertion ordered *)

Module Dict.

Abbreviation dict V := (list (string * V)).

Section ops.
Context {V : Type}.

(** [d.get(k)] *)
Fixpoint get (k : string) (d : dict V) : option V :=
  match d with
  | [] => None
  | (k', v) :: d' => if decide (k = k') then Some v else get k d'
  end.

(** [k in d] *)
Definition mem (k : string) (d : dict V) : bool :=
  match get k d with Some _ => true | None => false end.

(** [d[k] = v]: an existing key keeps its place, a new key goes last. *)
Fixpoint set (k : string) (v : V) (d : dict V) : dict V :=
  match d with
  | [] => [(k, v)]
  | (k', v') :: d' =>
      if decide (k = k') then (k, v) :: d' else (k', v') :: set k v d'
  end.

(** [del d[k]], for a key that is present. *)
Definition remove (k : string) (d : dict V) : dict V :=
  filter (λ e, e.1 ≠ k) d.

(** [d.keys()], [d.values()], [len(d)] *)
Definition keys (d : dict V) : list string := d.*1.
Definition values (d : dict V) : list V := d.*2.
Definition len (d : dict V) : nat := length d.
End ops.

End Dict.

Import Dict.

(** ** The host application *)

(** The part of a [Flask] application the loader reads: its identity and the
    two configuration keys.  [None] is a key that [app.config] lacks. *)
Record Flask : Type := {
  app_id : nat;
  DISABLED_PLUGINS : option (list string);
  PLUGINS_DIR : option string
}.

(** ** plugin.py *)

(** The outcome of running user code. *)
Inductive outcome (A : Type) : Type :=
  | Returns (a : A)
  | Raises (msg : string).
Arguments Returns {A} a.
Arguments Raises {A} msg.

(** A health payload, [Dict[str, Any]]. *)
Definition payload : Type := dict string.

Module ExpotionPlugin.

(** A concrete subclass of the abstract base: its class attributes and the
    outcome of each of its methods the loader calls. *)
Record plugin_class : Type := {
  name : string;
  version : string;
  dependencies : list string;
  __init__ : outcome unit;
  init_app : outcome unit;
  on_load : outcome unit;
  on_unload : outcome unit;
  healthcheck : outcome payload
}.

(** What [ExpotionPlugin.healthcheck] returns when it is not overridden. *)
Definition default_healthcheck (n v : string) : payload :=
  [("status", "ok"); ("plugin", n); ("version", v)].

(** A subclass that overrides only [name], [version], [dependencies] and
    the abstract [init_app] (with a body that returns). *)
Definition subclass (n v : string) (deps : list string) : plugin_class :=
  {| name := n; version := v; dependencies := deps;
     __init__ := Returns tt; init_app := Returns tt;
     on_load := Returns tt; on_unload := Returns tt;
     healthcheck := Returns (default_healthcheck n v) |}.

(** The instance attributes set by [__init__] and mutated by the loader. *)
Record instance : Type := {
  _app : option Flask;
  _enabled : bool
}.

Definition fresh : instance := {| _app := None; _enabled := true |}.

End ExpotionPlugin.

Import ExpotionPlugin.

(** A reference to a plugin object. *)
Record plugin_ref : Type := {
  ref_id : nat;
  ref_class : plugin_class
}.

(** ** loader.py: the dependency orderer *)

Module Sort.
Section sort.
Variable plugins : dict plugin_ref.

(** The closure variables [visited] and [result] of [visit]. *)
Definition dfs_state : Type := gset string * list plugin_ref.

(** [for dep in plugin.dependencies: if dep in self._plugins: visit(dep)] *)
Fixpoint visit_deps (visit : string → dfs_state → option dfs_state)
    (deps : list string) (s : dfs_state) : option dfs_state :=
  match deps with
  | [] => Some s
  | dep :: deps' =>
      if mem dep plugins then
        match visit dep s with
        | Some s' => visit_deps visit deps' s'
        | None => None
        end
      else visit_deps visit deps' s
  end.

(** The inner function [visit].  [fuel] bounds the depth of the Python
    call stack; [None] is a stack that was too shallow. *)
Fixpoint visit (fuel : nat) (nm : string) (s : dfs_state)
    : option dfs_state :=
  match fuel with
  | 0 => None
  | S fuel' =>
      let '(visited, result) := s in
      if decide (nm ∈ visited) then Some s
      else
        let visited := {[nm]} ∪ visited in
        match get nm plugins with
        | Some plugin =>
            match visit_deps (visit fuel') (dependencies (ref_class plugin))
                    (visited, result) with
            | Some (visited', result') => Some (visited', result' ++ [plugin])
            | None => None
            end
        | None => Some (visited, result)
        end
  end.

(** [for name in self._plugins: visit(name)] *)
Fixpoint visit_all (visit : string → dfs_state → option dfs_state)
    (names : list string) (s : dfs_state) : option dfs_state :=
  match names with
  | [] => Some s
  | nm :: names' =>
      match visit nm s with
      | Some s' => visit_all visit names' s'
      | None => None
      end
  end.

Definition sort_with_fuel (fuel : nat) : option (list plugin_ref) :=
  match visit_all (visit fuel) (keys plugins) (∅, []) with
  | Some (_, result) => Some result
  | None => None
  end.

(** [PluginLoader._sort_by_dependencies].  A call of [visit] nests at most
    one level per registered name, so this much stack always suffices
    (see [sort_terminates] and [sort_fuel_mono]). *)
Definition _sort_by_dependencies : option (list plugin_ref) :=
  sort_with_fuel (S (len plugins)).

End sort.
End Sort.

Import Sort.

(** ** Exceptions, the world outside the loader, and the loader monad *)

Inductive exn : Type :=
  | Exception (msg : string)
  | KeyError (key : string)
  | RecursionError.

(** [str(e)] *)
Definition str (e : exn) : string :=
  match e with
  | Exception msg => msg
  | KeyError key => "'" +:+ key +:+ "'"
  | RecursionError => "maximum recursion depth exceeded"
  end.

(** A call of a plugin hook, by the identity of the plugin. *)
Inductive event : Type :=
  | CallOnLoad (id : nat)
  | CallInitApp (id : nat) (app : Flask)
  | CallOnUnload (id : nat)
  | CallHealthcheck (id : nat).

(** What the two discovery sources find. *)
Record entry_point : Type := {
  ep_name : string;
  ep_load : outcome plugin_class
}.

Inductive attr : Type :=
  | PluginSubclass (c : plugin_class)   (* a strict subclass of ExpotionPlugin *)
  | OtherAttr.                          (* anything else [dir(module)] lists *)

Inductive module_file : Type :=
  | NoSpec                              (* spec_from_file_location gave nothing *)
  | ExecRaises (msg : string)           (* exec_module raised *)
  | Loaded (attrs : list attr).         (* the attributes, in [dir()] order *)

Record dir_entry : Type := {
  de_name : string;
  is_dir : bool;
  plugin_py : option module_file;       (* <entry>/plugin.py, if it exists *)
  init_py : option module_file          (* <entry>/__init__.py, if it exists *)
}.

Record environment : Type := {
  entry_points : outcome (list entry_point);
  path_exists : bool;
  iterdir : outcome (list dir_entry)
}.

Inductive result (A : Type) : Type :=
  | Ok (a : A)
  | Err (e : exn).
Arguments Ok {A} a.
Arguments Err {A} e.

Module PluginLoader.

(** The attributes of the loader, the heap of plugin instances and the
    trace of hook calls. *)
Record state : Type := {
  _app : option Flask;
  _plugins : dict plugin_ref;
  _plugins_dir : option string;
  _disabled_plugins : list string;
  heap : list instance;
  trace : list event
}.

Definition M (A : Type) : Type := state → result A * state.

Definition ret {A} (a : A) : M A := λ st, (Ok a, st).

Definition bind {A B} (m : M A) (k : A → M B) : M B :=
  λ st, match m st with
        | (Ok a, st') => k a st'
        | (Err e, st') => (Err e, st')
        end.

Definition raise {A} (e : exn) : M A := λ st, (Err e, st).

(** [try: body / except Exception as e: handler] *)
Definition try_except {A} (body : M A) (handler : exn → M A) : M A :=
  λ st, match body st with
        | (Ok a, st') => (Ok a, st')
        | (Err e, st') => handler e st'
        end.

Definition gets {A} (f : state → A) : M A := λ st, (Ok (f st), st).
Definition modify (f : state → state) : M unit := λ st, (Ok tt, f st).

Declare Scope loader_scope.
Delimit Scope loader_scope with loader.
Notation "x <- m ;; k" := (bind m (λ x, k))
  (at level 100, m at next level, right associativity) : loader_scope.
Notation "m >> k" := (bind m (λ _, k))
  (at level 100, right associativity) : loader_scope.
Open Scope loader_scope.

(** [for x in xs: body(x)] *)
Fixpoint for_each {A} (xs : list A) (body : A → M unit) : M unit :=
  match xs with
  | [] => ret tt
  | x :: xs' => body x >> for_each xs' body
  end.

(** A [for] loop that updates a local variable. *)
Fixpoint for_fold {A B} (xs : list A) (acc : B) (body : B → A → M B) : M B :=
  match xs with
  | [] => ret acc
  | x :: xs' => acc' <- body acc x ;; for_fold xs' acc' body
  end.

Definition of_outcome {A} (o : outcome A) : M A :=
  match o with
  | Returns a => ret a
  | Raises msg => raise (Exception msg)
  end.

Definition with_plugins (f : dict plugin_ref → dict plugin_ref) (st : state)
    : state :=
  {| _app := _app st; _plugins := f (_plugins st);
     _plugins_dir := _plugins_dir st;
     _disabled_plugins := _disabled_plugins st;
     heap := heap st; trace := trace st |}.

Definition with_heap (f : list instance → list instance) (st : state)
    : state :=
  {| _app := _app st; _plugins := _plugins st;
     _plugins_dir := _plugins_dir st;
     _disabled_plugins := _disabled_plugins st;
     heap := f (heap st); trace := trace st |}.

Definition log_call (e : event) (st : state) : state :=
  {| _app := _app st; _plugins := _plugins st;
     _plugins_dir := _plugins_dir st;
     _disabled_plugins := _disabled_plugins st;
     heap := heap st; trace := trace st ++ [e] |}.

Arguments with_plugins f st /.
Arguments with_heap f st /.
Arguments log_call e st /.

(** *** Plugin objects *)

(** [plugin_class()]: run the constructor, allocate the instance. *)
Definition new (c : plugin_class) : M plugin_ref :=
  of_outcome (ExpotionPlugin.__init__ c) >>
  h <- gets heap ;;
  modify (with_heap (λ h, h ++ [fresh])) >>
  ret {| ref_id := length h; ref_class := c |}.

(** [plugin._app = app] and [plugin._enabled = b] *)
Definition set_app (plugin : plugin_ref) (app : option Flask) : M unit :=
  modify (with_heap (alter
    (λ o, {| ExpotionPlugin._app := app; _enabled := _enabled o |})
    (ref_id plugin))).

Definition set_enabled (plugin : plugin_ref) (b : bool) : M unit :=
  modify (with_heap (alter
    (λ o, {| ExpotionPlugin._app := ExpotionPlugin._app o; _enabled := b |})
    (ref_id plugin))).

(** The properties [plugin.enabled] and [plugin.app]. *)
Definition enabled (st : state) (plugin : plugin_ref) : bool :=
  match heap st !! ref_id plugin with
  | Some o => _enabled o
  | None => false
  end.

Definition app (st : state) (plugin : plugin_ref) : option Flask :=
  match heap st !! ref_id plugin with
  | Some o => ExpotionPlugin._app o
  | None => None
  end.

(** The hooks: each call is recorded, then returns or raises. *)
Definition call_on_load (plugin : plugin_ref) : M unit :=
  modify (log_call (CallOnLoad (ref_id plugin))) >>
  of_outcome (on_load (ref_class plugin)).

Definition call_init_app (plugin : plugin_ref) (a : Flask) : M unit :=
  modify (log_call (CallInitApp (ref_id plugin) a)) >>
  of_outcome (ExpotionPlugin.init_app (ref_class plugin)).

Definition call_on_unload (plugin : plugin_ref) : M unit :=
  modify (log_call (CallOnUnload (ref_id plugin))) >>
  of_outcome (on_unload (ref_class plugin)).

Definition call_healthcheck (plugin : plugin_ref) : M payload :=
  modify (log_call (CallHealthcheck (ref_id plugin))) >>
  of_outcome (ExpotionPlugin.healthcheck (ref_class plugin)).

(** *** The methods of [PluginLoader] *)

(** [PluginLoader.init_app].  The extension slot and the context processor
    it installs belong to Flask. *)
Definition init_app (a : Flask) (st : state) : state :=
  {| _app := Some a;
     _plugins := _plugins st;
     _plugins_dir :=
       match _plugins_dir st with
       | None => PLUGINS_DIR a
       | Some d => Some d
       end;
     _disabled_plugins := default [] (DISABLED_PLUGINS a);
     heap := heap st; trace := trace st |}.

(** [PluginLoader.__init__], in a world without plugin objects. *)
Definition __init__ (a : option Flask) (plugins_dir : option string) : state :=
  let self :=
    {| _app := a; _plugins := []; _plugins_dir := plugins_dir;
       _disabled_plugins := []; heap := []; trace := [] |} in
  match a with
  | Some a => init_app a self
  | None => self
  end.

(** [PluginLoader._register_plugin_class] *)
Definition _register_plugin_class (c : plugin_class) (source : string)
    : M unit :=
  try_except
    (plugin <- new c ;;
     disabled <- gets _disabled_plugins ;;
     if bool_decide (name (ref_class plugin) ∈ disabled) then ret tt
     else
       plugins <- gets _plugins ;;
       if mem (name (ref_class plugin)) plugins then ret tt
       else
         call_on_load plugin >>
         modify (with_plugins (set (name (ref_class plugin)) plugin)))
    (λ e, ret tt).

(** [PluginLoader._load_from_entry_points] *)
Definition _load_from_entry_points (env : environment) : M unit :=
  try_except
    (eps <- of_outcome (entry_points env) ;;
     for_each eps (λ ep,
       try_except
         (c <- of_outcome (ep_load ep) ;;
          _register_plugin_class c ("pip:" +:+ ep_name ep))
         (λ e, ret tt)))
    (λ e, ret tt).

(** [s.startswith(c)] for a single character. *)
Definition startswith (c : Ascii.ascii) (s : string) : bool :=
  match s with
  | String c' _ => bool_decide (c' = c)
  | EmptyString => false
  end.

(** The truth value of [self._plugins_dir]. *)
Definition truthy (d : option string) : bool :=
  match d with
  | Some s => negb (bool_decide (s = EmptyString))
  | None => false
  end.

(** The scan of [dir(module)]: register the first plugin subclass, [break]. *)
Fixpoint register_first (attrs : list attr) (source : string) : M unit :=
  match attrs with
  | [] => ret tt
  | PluginSubclass c :: _ => _register_plugin_class c source
  | OtherAttr :: attrs' => register_first attrs' source
  end.

(** [PluginLoader._load_from_directory] *)
Definition _load_from_directory (env : environment) : M unit :=
  d <- gets _plugins_dir ;;
  if negb (truthy d) || negb (path_exists env) then ret tt
  else
    entries <- of_outcome (iterdir env) ;;
    for_each entries (λ plugin_path,
      if negb (is_dir plugin_path) then ret tt
      else if startswith "_"%char (de_name plugin_path)
              || startswith "."%char (de_name plugin_path) then ret tt
      else
        let plugin_module :=
          match plugin_py plugin_path with
          | Some f => Some f
          | None => init_py plugin_path
          end in
        match plugin_module with
        | None => ret tt
        | Some f =>
            try_except
              match f with
              | NoSpec => ret tt
              | ExecRaises msg => raise (Exception msg)
              | Loaded attrs =>
                  register_first attrs ("local:" +:+ de_name plugin_path)
              end
              (λ e, ret tt)
        end).

(** [PluginLoader._sort_by_dependencies], on the current registry. *)
Definition sort_by_dependencies : M (list plugin_ref) :=
  plugins <- gets _plugins ;;
  match _sort_by_dependencies plugins with
  | Some sorted => ret sorted
  | None => raise RecursionError
  end.

(** [PluginLoader._init_all_plugins] *)
Definition _init_all_plugins : M unit :=
  a <- gets _app ;;
  match a with
  | None => ret tt
  | Some a =>
      sorted_plugins <- sort_by_dependencies ;;
      for_each sorted_plugins (λ plugin,
        try_except
          (set_app plugin (Some a) >> call_init_app plugin a)
          (λ e, set_enabled plugin false))
  end.

(** [PluginLoader.load_all] *)
Definition load_all (env : environment) : M unit :=
  _load_from_entry_points env >>
  (d <- gets _plugins_dir ;;
   if truthy d then _load_from_directory env else ret tt) >>
  _init_all_plugins.

(** [PluginLoader.get_plugin] and [PluginLoader.get_all_plugins] *)
Definition get_plugin (st : state) (nm : string) : option plugin_ref :=
  get nm (_plugins st).

Definition get_all_plugins (st : state) : list plugin_ref :=
  filter (λ p, enabled st p = true) (values (_plugins st)).

(** [PluginLoader.healthcheck] *)
Definition error_status (e : exn) : payload :=
  [("status", "error"); ("message", str e)].

Definition healthcheck : M (dict payload) :=
  plugins <- gets _plugins ;;
  for_fold plugins [] (λ results item,
    let '(nm, plugin) := item in
    try_except
      (r <- call_healthcheck plugin ;; ret (set nm r results))
      (λ e, ret (set nm (error_status e) results))).

(** [del self._plugins[name]] *)
Definition delitem (nm : string) : M unit :=
  plugins <- gets _plugins ;;
  if mem nm plugins then modify (with_plugins (remove nm))
  else raise (KeyError nm).

(** [PluginLoader.unload_plugin] *)
Definition unload_plugin (nm : string) : M bool :=
  plugins <- gets _plugins ;;
  match get nm plugins with
  | Some plugin =>
      try_except
        (call_on_unload plugin >>
         set_enabled plugin false >>
         delitem nm >>
         ret true)
        (λ e, ret false)
  | None => ret false
  end.

End PluginLoader.

Import PluginLoader.

(** ** Vocabulary of the statements *)

Module SortSpec.
Section defs.
Variable plugins : dict plugin_ref.

(** [a] declares [b] as a dependency, and both are registered. *)
Definition edge (a b : string) : Prop :=
  ∃ p, get a plugins = Some p
       ∧ b ∈ dependencies (ref_class p)
       ∧ mem b plugins = true.

(** [b] is [a] or a direct or indirect registered dependency of [a]. *)
Definition reaches : string → string → Prop := rtc edge.

(** The registered names [visit] has not entered yet. *)
Definition unvisited (visited : gset string) : nat :=
  length (filter (λ k, k ∉ visited) (keys plugins)).

(** [new] are the plugins registered under the names [ks], in order. *)
Definition finishes (ks : list string) (new : list plugin_ref) : Prop :=
  Forall2 (λ k p, get k plugins = Some p) ks new.

(** What a run of the traversal from state [s] to state [s'] did: it
    entered and left exactly the names [ks], in that order, each of them
    reached from a root in [from]. *)
Record visit_post (from : string → Prop) (s s' : dfs_state)
    (ks : list string) : Prop := {
  vp_result : ∃ new, s'.2 = s.2 ++ new ∧ finishes ks new;
  vp_visited : s'.1 = s.1 ∪ list_to_set ks;
  vp_fresh : ∀ k, k ∈ ks → k ∉ s.1;
  vp_nodup : NoDup ks;
  vp_from : ∀ k, k ∈ ks → ∃ r, from r ∧ reaches r k;
  vp_order : ∀ i k d, ks !! i = Some k → edge k d →
    d ∈ s.1 ∨ (∃ j, j < i ∧ ks !! j = Some d) ∨ reaches d k
}.

End defs.
End SortSpec.

Import SortSpec.

Module LoaderSpec.

(** A loader state the methods can produce: the registry has one entry per
    key, each entry is keyed by the name of its plugin, and the entries are
    distinct allocated objects. *)
Definition keyed_by_name (st : state) : Prop :=
  Forall (λ e, name (ref_class e.2) = e.1) (_plugins st).

Definition wf (st : state) : Prop :=
  NoDup (keys (_plugins st))
  ∧ NoDup (ref_id <$> values (_plugins st))
  ∧ Forall (λ e, ref_id e.2 < length (heap st)) (_plugins st)
  ∧ keyed_by_name st.

(** [m] maintains [P], whether it returns or raises. *)
Definition preserves {A} (P : state → Prop) (m : M A) : Prop :=
  ∀ st, P st → P (m st).2.

(** The state [_register_plugin_class] leaves, in closed form. *)
Definition registration (c : plugin_class) (st : state) : state :=
  match ExpotionPlugin.__init__ c with
  | Raises _ => st
  | Returns _ =>
      let plugin := {| ref_id := length (heap st); ref_class := c |} in
      let st1 := with_heap (λ h, h ++ [fresh]) st in
      if bool_decide (name c ∈ _disabled_plugins st) then st1
      else if mem (name c) (_plugins st) then st1
      else
        let st2 := log_call (CallOnLoad (ref_id plugin)) st1 in
        match on_load c with
        | Raises _ => st2
        | Returns _ => with_plugins (set (name c) plugin) st2
        end
  end.

(** The candidate is one that registration accepts in state [st]. *)
Definition accepted (c : plugin_class) (st : state) : Prop :=
  ExpotionPlugin.__init__ c = Returns tt
  ∧ (name c ∉ _disabled_plugins st)
  ∧ mem (name c) (_plugins st) = false
  ∧ on_load c = Returns tt.

(** Every registered plugin is as its constructor left it. *)
Definition pristine (st : state) : Prop :=
  Forall (λ e, enabled st e.2 = true ∧ app st e.2 = None) (_plugins st).

(** The two discovery passes of [load_all], without the initialization. *)
Definition discover (env : environment) : M unit :=
  _load_from_entry_points env >>
  (d <- gets _plugins_dir ;;
   if truthy d then _load_from_directory env else ret tt).

(** One round of the initialization loop, in closed form. *)
Definition initialized (a : Flask) (c : plugin_class) (o : instance)
    : instance :=
  {| ExpotionPlugin._app := Some a;
     _enabled :=
       match ExpotionPlugin.init_app c with
       | Returns _ => _enabled o
       | Raises _ => false
       end |}.

Definition init_one (a : Flask) (st : state) (plugin : plugin_ref) : state :=
  log_call (CallInitApp (ref_id plugin) a)
    (with_heap (alter (initialized a (ref_class plugin)) (ref_id plugin)) st).

(** The entry [healthcheck] reports for a plugin. *)
Definition health_status (plugin : plugin_ref) : payload :=
  match ExpotionPlugin.healthcheck (ref_class plugin) with
  | Returns r => r
  | Raises msg => [("status", "error"); ("message", msg)]
  end.

Definition disable (o : instance) : instance :=
  {| ExpotionPlugin._app := ExpotionPlugin._app o; _enabled := false |}.

Definition is_on_load (e : event) : Prop :=
  match e with CallOnLoad _ => True | _ => False end.

End LoaderSpec.

Import LoaderSpec.

Global Instance outcome_eq_dec {A} `{EqDecision A} : EqDecision (outcome A).
Proof. solve_decision. Defined.

Global Instance accepted_dec c st : Decision (accepted c st).
Proof. unfold accepted. apply _. Defined.

Global Instance keyed_by_name_dec st : Decision (keyed_by_name st).
Proof. unfold keyed_by_name. apply _. Defined.

Global Instance wf_dec st : Decision (wf st).
Proof. unfold wf. apply _. Defined.

(** ** Test data *)

Module Examples.

Definition mk (i : nat) (n : string) (deps : list string) : plugin_ref :=
  {| ref_id := i; ref_class := subclass n "1.0" deps |}.

Definition registry_of (l : list plugin_ref) : dict plugin_ref :=
  (λ r, (name (ref_class r), r)) <$> l.

(** The scenario of the specification: A, B (needs A), C (needs B),
    discovered in the order C, A, B. *)
Definition pA : plugin_ref := mk 1 "A" [].
Definition pB : plugin_ref := mk 2 "B" ["A"].
Definition pC : plugin_ref := mk 0 "C" ["B"].
Definition chain : dict plugin_ref := registry_of [pC; pA; pB].

(** Two plugins that need each other. *)
Definition qA : plugin_ref := mk 0 "A" ["B"].
Definition qB : plugin_ref := mk 1 "B" ["A"].
Definition cycle : dict plugin_ref := registry_of [qA; qB].

(** Plugin classes with a failing hook. *)
Definition failing_init (n : string) : plugin_class :=
  {| name := n; version := "1.0"; dependencies := [];
     ExpotionPlugin.__init__ := Returns tt;
     ExpotionPlugin.init_app := Raises "init failed";
     on_load := Returns tt; on_unload := Returns tt;
     ExpotionPlugin.healthcheck := Returns (default_healthcheck n "1.0") |}.

Definition failing_on_load (n : string) : plugin_class :=
  {| name := n; version := "1.0"; dependencies := [];
     ExpotionPlugin.__init__ := Returns tt;
     ExpotionPlugin.init_app := Returns tt;
     on_load := Raises "load failed"; on_unload := Returns tt;
     ExpotionPlugin.healthcheck := Returns (default_healthcheck n "1.0") |}.

Definition failing_health (n : string) : plugin_class :=
  {| name := n; version := "1.0"; dependencies := [];
     ExpotionPlugin.__init__ := Returns tt;
     ExpotionPlugin.init_app := Returns tt;
     on_load := Returns tt; on_unload := Returns tt;
     ExpotionPlugin.healthcheck := Raises "unhealthy" |}.

(** Applications and environments. *)
Definition plain_app : Flask :=
  {| app_id := 0; DISABLED_PLUGINS := None; PLUGINS_DIR := None |}.

Definition app_without_X : Flask :=
  {| app_id := 1; DISABLED_PLUGINS := Some ["X"];
     PLUGINS_DIR := Some "plugins" |}.

Definition X : plugin_class := subclass "X" "1.0" [].
Definition Y : plugin_class := subclass "Y" "1.0" ["X"].

(** X comes from an entry point and from a local folder, Y from a folder. *)
Definition env_XY : environment :=
  {| entry_points := Returns [ {| ep_name := "x"; ep_load := Returns X |} ];
     path_exists := true;
     iterdir := Returns
       [ {| de_name := "x_local"; is_dir := true;
            plugin_py := Some (Loaded [OtherAttr; PluginSubclass X]);
            init_py := None |};
         {| de_name := "y_local"; is_dir := true;
            plugin_py := None;
            init_py := Some (Loaded [PluginSubclass Y]) |} ] |}.

(** A and B come from entry points; the initialization of A fails. *)
Definition env_AB : environment :=
  {| entry_points := Returns
       [ {| ep_name := "a"; ep_load := Returns (failing_init "A") |};
         {| ep_name := "b"; ep_load := Returns (subclass "B" "1.0" []) |} ];
     path_exists := false;
     iterdir := Returns [] |}.

(** C, A and B of the chain come from entry points, in that order. *)
Definition env_CAB : environment :=
  {| entry_points := Returns
       [ {| ep_name := "c"; ep_load := Returns (ref_class pC) |};
         {| ep_name := "a"; ep_load := Returns (ref_class pA) |};
         {| ep_name := "b"; ep_load := Returns (ref_class pB) |} ];
     path_exists := false;
     iterdir := Returns [] |}.

Definition discovered_CAB : state :=
  (discover env_CAB (__init__ (Some plain_app) None)).2.

(** A loader bound to an application, after discovery. *)
Definition discovered_AB : state :=
  (discover env_AB (__init__ (Some plain_app) None)).2.

(** A loader without an application that has loaded X and Y and is then
    bound to an application that disables X. *)
Definition rebound : state :=
  init_app app_without_X
    (load_all env_XY (__init__ None (Some "plugins"))).2.

End Examples.

(** ** The statements of the specification that the code does not meet *)

Module AsStated.


(** "A name in the disable-list is never a key of the registry after
    [load_all()]." *)
Definition disabled_never_registered (st : state) (env : environment) : Prop :=
  ∀ nm, nm ∈ _disabled_plugins st → get_plugin (load_all env st).2 nm = None.

(** "A descriptor with an empty name is rejected." *)
Definition empty_name_rejected (st : state) (c : plugin_class) : Prop :=
  name c = EmptyString →
  get_plugin (_register_plugin_class c "unknown" st).2 EmptyString = None.

End AsStated.

(** ** loader.py: menu contributions *)

Module Contributions.

(** A menu entry, [Dict[str, str]]. *)
Definition menu_item : Type := dict string.

(** [PluginLoader.get_all_menu_items].  The argument gives, for each plugin
    object, the outcome of its method [get_menu_items]; the method only
    reads, and its calls are not put on the trace. *)
Definition get_all_menu_items
    (get_menu_items : plugin_ref → outcome (list menu_item))
    : M (list menu_item) :=
  active <- gets get_all_plugins ;;
  for_fold active [] (λ items plugin,
    r <- of_outcome (get_menu_items plugin) ;;
    ret (items ++ r)).

(** [ExpotionPlugin.get_menu_items] when no class overrides it. *)
Definition default_menu_items (plugin : plugin_ref)
    : outcome (list menu_item) :=
  Returns [].

End Contributions.

Import Contributions.

(** ** Vocabulary of the statements about discovery and reachable states *)

Module DiscoverySpec.

(** The classes the entry points yield, in order; an entry point that fails
    to load yields none. *)
Definition ep_candidates (env : environment) : list plugin_class :=
  match entry_points env with
  | Returns eps =>
      omap (λ ep, match ep_load ep with
                  | Returns c => Some c
                  | Raises _ => None
                  end) eps
  | Raises _ => []
  end.

(** A directory entry the scan looks into. *)
Definition visible (e : dir_entry) : bool :=
  is_dir e
  && negb (startswith "_"%char (de_name e) || startswith "."%char (de_name e)).

Fixpoint first_subclass (attrs : list attr) : option plugin_class :=
  match attrs with
  | [] => None
  | PluginSubclass c :: _ => Some c
  | OtherAttr :: attrs' => first_subclass attrs'
  end.

(** The class a directory entry yields, if any. *)
Definition dir_candidate (e : dir_entry) : option plugin_class :=
  if visible e then
    match plugin_py e, init_py e with
    | Some (Loaded attrs), _ => first_subclass attrs
    | Some _, _ => None
    | None, Some (Loaded attrs) => first_subclass attrs
    | None, _ => None
    end
  else None.

Definition dir_candidates (entries : list dir_entry) : list plugin_class :=
  omap dir_candidate entries.

(** Whether the directory pass of [load_all] gets to list the directory. *)
Definition scans (env : environment) (st : state) : bool :=
  truthy (_plugins_dir st) && path_exists env.

(** The candidates of [load_all], in the order it registers them. *)
Definition candidates (env : environment) (st : state) : list plugin_class :=
  ep_candidates env
  ++ (if scans env st then
        match iterdir env with
        | Returns entries => dir_candidates entries
        | Raises _ => []
        end
      else []).

(** Registering a list of candidates, one after the other. *)
Definition register_all (cs : list plugin_class) (st : state) : state :=
  foldl (λ st c, registration c st) st cs.

(** The loader states the public methods produce. *)
Inductive reachable : state → Prop :=
  | reach_new a d : reachable (__init__ a d)
  | reach_init_app a st : reachable st → reachable (init_app a st)
  | reach_load_all env st : reachable st → reachable (load_all env st).2
  | reach_unload nm st : reachable st → reachable (unload_plugin nm st).2
  | reach_healthcheck st : reachable st → reachable (healthcheck st).2
  | reach_menu h st : reachable st → reachable (get_all_menu_items h st).2.


End DiscoverySpec.

Import DiscoverySpec.

(** ** More test data *)

Module Fixtures.

Definition failing_constructor (n : string) : plugin_class :=
  {| name := n; version := "1.0"; dependencies := [];
     ExpotionPlugin.__init__ := Raises "cannot construct";
     ExpotionPlugin.init_app := Returns tt;
     on_load := Returns tt; on_unload := Returns tt;
     ExpotionPlugin.healthcheck := Returns (default_healthcheck n "1.0") |}.

Definition failing_on_unload (n : string) : plugin_class :=
  {| name := n; version := "1.0"; dependencies := [];
     ExpotionPlugin.__init__ := Returns tt;
     ExpotionPlugin.init_app := Returns tt;
     on_load := Returns tt; on_unload := Raises "busy";
     ExpotionPlugin.healthcheck := Returns (default_healthcheck n "1.0") |}.

(** An entry point that cannot be loaded between two that can. *)
Definition eps_before : list entry_point :=
  [ {| ep_name := "x"; ep_load := Returns Examples.X |} ].
Definition ep_broken : entry_point :=
  {| ep_name := "broken"; ep_load := Raises "import error" |}.
Definition eps_after : list entry_point :=
  [ {| ep_name := "y"; ep_load := Returns Examples.Y |} ].

Definition env_broken_ep : environment :=
  {| entry_points := Returns (eps_before ++ ep_broken :: eps_after);
     path_exists := false;
     iterdir := Returns [] |}.

(** A plugins directory with a hidden folder, a plain file and a folder
    whose [plugin.py] does not load. *)
Definition messy_entries : list dir_entry :=
  [ {| de_name := "_cache"; is_dir := true;
       plugin_py := Some (Loaded [PluginSubclass Examples.X]);
       init_py := None |};
    {| de_name := "README"; is_dir := false;
       plugin_py := None; init_py := None |};
    {| de_name := "y_local"; is_dir := true;
       plugin_py := Some (ExecRaises "syntax error");
       init_py := Some (Loaded [PluginSubclass Examples.Y]) |};
    {| de_name := "x_local"; is_dir := true;
       plugin_py := None;
       init_py := Some (Loaded [OtherAttr; PluginSubclass Examples.X;
                                PluginSubclass Examples.Y]) |} ].

Definition env_messy : environment :=
  {| entry_points := Raises "no metadata";
     path_exists := true;
     iterdir := Returns messy_entries |}.

(** The same folders with other [__init__.py] files beside a [plugin.py]. *)
Definition messy_entries' : list dir_entry :=
  [ {| de_name := "_cache"; is_dir := true;
       plugin_py := Some (Loaded [PluginSubclass Examples.X]);
       init_py := Some NoSpec |};
    {| de_name := "README"; is_dir := false;
       plugin_py := None; init_py := None |};
    {| de_name := "y_local"; is_dir := true;
       plugin_py := Some (ExecRaises "syntax error");
       init_py := None |};
    {| de_name := "x_local"; is_dir := true;
       plugin_py := None;
       init_py := Some (Loaded [OtherAttr; PluginSubclass Examples.X;
                                PluginSubclass Examples.Y]) |} ].

(** A plugins directory that exists and cannot be listed. *)
Definition env_unreadable : environment :=
  {| entry_points := Returns eps_before;
     path_exists := true;
     iterdir := Raises "permission denied" |}.

(** A loader with a plugins directory, bound to an application. *)
Definition with_dir : state :=
  __init__ (Some Examples.plain_app) (Some "plugins").


(** A loader after a complete [load_all] in which the initialization of A
    failed. *)
Definition loaded_AB : state :=
  (load_all Examples.env_AB (__init__ (Some Examples.plain_app) None)).2.

(** A loader after a complete [load_all] of X and Y. *)
Definition loaded_XY : state :=
  (load_all Examples.env_XY
     (__init__ (Some Examples.plain_app) (Some "plugins"))).2.

(** Menu hooks: X contributes two entries, every other class one. *)
Definition menus (plugin : plugin_ref) : outcome (list menu_item) :=
  if decide (name (ref_class plugin) = "X")
  then Returns [[("title", "X1")]; [("title", "X2")]]
  else Returns [[("title", name (ref_class plugin))]].

(** Menu hooks where that of B raises. *)
Definition menus_B_fails (plugin : plugin_ref) : outcome (list menu_item) :=
  if decide (name (ref_class plugin) = "B") then Raises "no menu"
  else menus plugin.

End Fixtures.

(** ** Facts about dictionaries *)

Section dict_facts.
Context {V : Type}.
Implicit Types (d : dict V) (k : string) (v : V).

Lemma get_Some_elem k v d : get k d = Some v → (k, v) ∈ d.
Proof.
  induction d as [|[k' v'] d IH]; simpl; [done|].
  case_decide; intros; simplify_eq; [left|right; auto].
Qed.

Lemma get_None_keys k d : get k d = None ↔ k ∉ keys d.
Proof.
  unfold keys. induction d as [|[k' v'] d IH]; simpl.
  - split; [intros _; apply not_elem_of_nil | done].
  - rewrite not_elem_of_cons. case_decide as Hk.
    + split; [done | intros [? _]; done].
    + rewrite IH. split; [done | by intros [_ ?]].
Qed.

Lemma mem_keys k d : mem k d = true ↔ k ∈ keys d.
Proof.
  unfold mem. destruct (get k d) eqn:E.
  - split; [intros _|done].
    destruct (decide (k ∈ keys d)) as [|Hn]; [done|].
    apply get_None_keys in Hn. congruence.
  - apply get_None_keys in E. naive_solver.
Qed.

Lemma get_NoDup k v d : NoDup (keys d) → (k, v) ∈ d → get k d = Some v.
Proof.
  unfold keys. induction d as [|[k' v'] d IH]; simpl.
  - intros _ H. by apply elem_of_nil in H.
  - intros Hnd Hin. apply NoDup_cons in Hnd as [Hk' Hnd].
    apply elem_of_cons in Hin as [Heq|Hin].
    + simplify_eq. by rewrite decide_True.
    + rewrite decide_False; [by apply IH|].
      intros ->. apply Hk'. apply list_elem_of_fmap. by exists (k', v).
Qed.

Lemma get_keys_values d :
  NoDup (keys d) → Forall2 (λ k v, get k d = Some v) (keys d) (values d).
Proof.
  intros Hnd. unfold keys, values. apply Forall2_fmap, Forall_Forall2_diag.
  apply Forall_forall. intros [k v] Hin. simpl. by apply get_NoDup.
Qed.

Lemma omap_get ks vs d :
  Forall2 (λ k v, get k d = Some v) ks vs → omap (λ k, get k d) ks = vs.
Proof. induction 1 as [|k v ks vs Hk _ IH]; csimpl; [done|]. by rewrite Hk, IH. Qed.

Lemma get_set_eq k v d : get k (set k v d) = Some v.
Proof.
  induction d as [|[k' v'] d IH]; simpl.
  - by rewrite decide_True.
  - case_decide; simpl; [by rewrite decide_True | by rewrite decide_False].
Qed.

Lemma get_set_ne k k' v d : k ≠ k' → get k' (set k v d) = get k' d.
Proof.
  intros Hne. induction d as [|[k'' v''] d IH]; simpl.
  - by rewrite decide_False.
  - case_decide; simpl; subst.
    + by rewrite !decide_False.
    + case_decide; auto.
Qed.

Lemma set_fresh k v d : get k d = None → set k v d = d ++ [(k, v)].
Proof.
  induction d as [|[k' v'] d IH]; simpl; [done|].
  case_decide; [done|]. intros Hd. by rewrite IH.
Qed.

Lemma keys_set k v d x : x ∈ keys (set k v d) ↔ x = k ∨ x ∈ keys d.
Proof.
  rewrite <- !mem_keys. unfold mem.
  destruct (decide (k = x)) as [->|Hne].
  - rewrite get_set_eq. split; [by left | done].
  - rewrite get_set_ne by done. split; [by right | by intros [->|?]].
Qed.


End dict_facts.

(** ** The dependency orderer *)

Section sort_facts.
Variable plugins : dict plugin_ref.

Local Abbreviation edge := (edge plugins).
Local Abbreviation reaches := (reaches plugins).
Local Abbreviation unvisited := (unvisited plugins).
Local Abbreviation finishes := (finishes plugins).
Local Abbreviation visit_post := (visit_post plugins).
Local Abbreviation registered := (λ nm, mem nm plugins = true).

(** *** Termination *)

Lemma unvisited_mono (v v' : gset string) :
  v ⊆ v' → unvisited v' ≤ unvisited v.
Proof.
  intros Hsub. unfold SortSpec.unvisited.
  induction (keys plugins) as [|k ks IH]; [done|].
  rewrite !filter_cons.
  destruct (decide (k ∉ v')), (decide (k ∉ v)); simpl; try lia.
  set_solver.
Qed.

Lemma unvisited_enter (v : gset string) nm :
  registered nm → nm ∉ v → unvisited ({[nm]} ∪ v) < unvisited v.
Proof.
  intros Hreg Hnm. apply mem_keys in Hreg. unfold SortSpec.unvisited.
  induction (keys plugins) as [|k ks IH]; [by apply elem_of_nil in Hreg|].
  rewrite !filter_cons.
  destruct (decide (k = nm)) as [->|Hne].
  - rewrite decide_False.
    2:{ intros Hx. apply Hx, elem_of_union_l. by apply elem_of_singleton. }
    rewrite decide_True by done. simpl.
    pose proof (unvisited_mono v ({[nm]} ∪ v)) as Hm.
    unfold SortSpec.unvisited in Hm.
    clear IH Hreg. apply Nat.lt_succ_r.
    induction ks as [|k' ks IH]; [done|].
    rewrite !filter_cons.
    destruct (decide (k' ∉ {[nm]} ∪ v)), (decide (k' ∉ v)); simpl; try lia.
    set_solver.
  - apply elem_of_cons in Hreg as [?|Hreg]; [done|]. specialize (IH Hreg).
    destruct (decide (k ∉ {[nm]} ∪ v)), (decide (k ∉ v)); simpl; try lia.
    set_solver.
Qed.

Lemma unvisited_le_len (v : gset string) : unvisited v ≤ len plugins.
Proof.
  unfold SortSpec.unvisited, len, keys.
  etrans; [apply length_filter|]. by rewrite length_fmap.
Qed.

Lemma visit_deps_total visit' (n : nat) :
  (∀ nm s, unvisited s.1 < n →
     ∃ s', visit' nm s = Some s' ∧ s.1 ⊆ s'.1) →
  ∀ deps s, unvisited s.1 < n →
    ∃ s', visit_deps plugins visit' deps s = Some s' ∧ s.1 ⊆ s'.1.
Proof.
  intros Hv deps. induction deps as [|dep deps IH]; intros s Hs; simpl.
  - by exists s.
  - destruct (mem dep plugins); [|by apply IH].
    destruct (Hv dep s Hs) as (s1 & -> & Hsub).
    destruct (IH s1) as (s2 & -> & Hsub2).
    + pose proof (unvisited_mono _ _ Hsub). lia.
    + exists s2. split; [done|]. set_solver.
Qed.

Lemma visit_total fuel :
  ∀ nm s, unvisited s.1 < fuel →
    ∃ s', visit plugins fuel nm s = Some s' ∧ s.1 ⊆ s'.1.
Proof.
  induction fuel as [|fuel IH]; intros nm [visited result] Hs; [lia|].
  simpl in *. case_decide as Hin; [by eexists|].
  destruct (get nm plugins) as [plugin|] eqn:Hget.
  - assert (registered nm) as Hreg by (by unfold mem; rewrite Hget).
    pose proof (unvisited_enter visited nm Hreg Hin) as Hlt.
    destruct (visit_deps_total (visit plugins fuel) fuel IH
                (dependencies (ref_class plugin)) ({[nm]} ∪ visited, result))
      as ([visited' result'] & -> & Hsub); [simpl; lia|].
    eexists. split; [done|]. simpl in *. set_solver.
  - eexists. split; [done|]. simpl. set_solver.
Qed.

Lemma visit_all_total visit' (n : nat) :
  (∀ nm s, unvisited s.1 < n →
     ∃ s', visit' nm s = Some s' ∧ s.1 ⊆ s'.1) →
  ∀ names s, unvisited s.1 < n →
    ∃ s', visit_all visit' names s = Some s'.
Proof.
  intros Hv names. induction names as [|nm names IH]; intros s Hs; simpl.
  - by exists s.
  - destruct (Hv nm s Hs) as (s1 & -> & Hsub). apply IH.
    pose proof (unvisited_mono _ _ Hsub). lia.
Qed.

Lemma sort_terminates : is_Some (_sort_by_dependencies plugins).
Proof.
  unfold _sort_by_dependencies, sort_with_fuel.
  destruct (visit_all_total (visit plugins (S (len plugins))) (S (len plugins))
              (visit_total _) (keys plugins) (∅, [])) as ([v r] & ->).
  - simpl. pose proof (unvisited_le_len ∅). lia.
  - done.
Qed.

(** More stack never changes the answer. *)
Lemma visit_deps_fuel_mono (v1 v2 : string → dfs_state → option dfs_state) :
  (∀ nm s s', v1 nm s = Some s' → v2 nm s = Some s') →
  ∀ deps s s', visit_deps plugins v1 deps s = Some s' →
               visit_deps plugins v2 deps s = Some s'.
Proof.
  intros Hv deps. induction deps as [|dep deps IH]; intros s s'; simpl; [done|].
  destruct (mem dep plugins); [|apply IH].
  destruct (v1 dep s) as [s1|] eqn:E; [|done].
  rewrite (Hv _ _ _ E). apply IH.
Qed.

Lemma visit_fuel_mono fuel fuel' :
  fuel ≤ fuel' →
  ∀ nm s s', visit plugins fuel nm s = Some s' →
             visit plugins fuel' nm s = Some s'.
Proof.
  revert fuel'. induction fuel as [|fuel IH]; intros fuel' Hle nm s s'; [done|].
  destruct fuel' as [|fuel']; [lia|]. simpl.
  destruct s as [visited result]. case_decide; [done|].
  destruct (get nm plugins) as [plugin|]; [|done].
  destruct (visit_deps plugins (visit plugins fuel) _ _) as [s1|] eqn:E; [|done].
  erewrite visit_deps_fuel_mono; [done| |exact E].
  apply IH. lia.
Qed.

Lemma sort_fuel_mono fuel fuel' l :
  fuel ≤ fuel' →
  sort_with_fuel plugins fuel = Some l → sort_with_fuel plugins fuel' = Some l.
Proof.
  intros Hle. unfold sort_with_fuel.
  destruct (visit_all (visit plugins fuel) (keys plugins) (∅, []))
    as [[v r]|] eqn:E; [|done].
  intros [= <-].
  assert (∀ names s s', visit_all (visit plugins fuel) names s = Some s' →
            visit_all (visit plugins fuel') names s = Some s') as Hall.
  { induction names as [|nm names IH]; intros s s'; simpl; [done|].
    destruct (visit plugins fuel nm s) as [s1|] eqn:E1; [|done].
    rewrite (visit_fuel_mono _ _ Hle _ _ _ E1). apply IH. }
  by rewrite (Hall _ _ _ E).
Qed.

(** *** What the traversal computes *)

Lemma visit_post_nil from s : visit_post from s s [].
Proof.
  split.
  - exists []. split; [by rewrite app_nil_r | constructor].
  - simpl. set_solver.
  - intros k Hk. by apply elem_of_nil in Hk.
  - constructor.
  - intros k Hk. by apply elem_of_nil in Hk.
  - intros i k d Hi. by rewrite lookup_nil in Hi.
Qed.

Lemma visit_post_weaken (from from' : string → Prop) s s' ks :
  (∀ r, from r → from' r) → visit_post from s s' ks → visit_post from' s s' ks.
Proof.
  intros Hw [H1 H2 H3 H4 H5 H6]. split; try done.
  intros k Hk. destruct (H5 k Hk) as (r & Hr & Hrk). eauto.
Qed.

Lemma visit_post_app from1 from2 s s' s'' ks1 ks2 :
  visit_post from1 s s' ks1 → visit_post from2 s' s'' ks2 →
  visit_post (λ r, from1 r ∨ from2 r) s s'' (ks1 ++ ks2).
Proof.
  intros [(new1 & R1 & F1) V1 Fr1 N1 From1 O1] [(new2 & R2 & F2) V2 Fr2 N2 From2 O2].
  split.
  - exists (new1 ++ new2). split; [by rewrite R2, R1, app_assoc|].
    by apply Forall2_app.
  - rewrite V2, V1, list_to_set_app_L. set_solver.
  - intros k Hk. apply elem_of_app in Hk as [Hk|Hk]; [by apply Fr1|].
    apply Fr2 in Hk. rewrite V1 in Hk. set_solver.
  - apply NoDup_app. split; [done|]. split; [|done].
    intros k Hk1 Hk2. apply Fr2 in Hk2. rewrite V1 in Hk2.
    apply Hk2, elem_of_union_r. by apply elem_of_list_to_set.
  - intros k Hk. apply elem_of_app in Hk as [Hk|Hk].
    + destruct (From1 k Hk) as (r & ? & ?). eauto.
    + destruct (From2 k Hk) as (r & ? & ?). eauto.
  - intros i k d Hi He. apply lookup_app_Some in Hi as [Hi|[Hle Hi]].
    + destruct (O1 i k d Hi He) as [?|[(j & Hj & Hd)|?]]; [by left| |by right; right].
      right; left. exists j. split; [done|]. by apply lookup_app_l_Some.
    + destruct (O2 _ k d Hi He) as [Hd|[(j & Hj & Hd)|?]]; [| |by right; right].
      * rewrite V1 in Hd. apply elem_of_union in Hd as [Hd|Hd]; [by left|].
        right; left. apply elem_of_list_to_set, list_elem_of_lookup in Hd as [j Hj].
        exists j. split; [|by apply lookup_app_l_Some].
        apply lookup_lt_Some in Hj. lia.
      * right; left. exists (length ks1 + j). split; [lia|].
        by rewrite lookup_app_r, Nat.add_comm, Nat.add_sub by lia.
Qed.

(** The loop over the dependencies of a plugin, for any [visit'] that
    behaves as [visit] does. *)
Lemma visit_deps_post visit' :
  (∀ nm s s', registered nm → visit' nm s = Some s' →
     ∃ ks, visit_post (eq nm) s s' ks ∧ nm ∈ s'.1) →
  ∀ deps s s', visit_deps plugins visit' deps s = Some s' →
    ∃ ks, visit_post (λ r, r ∈ deps ∧ registered r) s s' ks
          ∧ (∀ d, d ∈ deps → registered d → d ∈ s'.1).
Proof.
  intros Hv deps. induction deps as [|dep deps IH]; intros s s'; simpl.
  - intros [= <-]. exists []. split; [apply visit_post_nil|].
    intros d Hd. by apply elem_of_nil in Hd.
  - destruct (mem dep plugins) eqn:Hreg.
    + destruct (visit' dep s) as [s1|] eqn:E1; [|done]. intros E2.
      destruct (Hv _ _ _ Hreg E1) as (ks1 & P1 & Hdep).
      destruct (IH _ _ E2) as (ks2 & P2 & Hdeps).
      exists (ks1 ++ ks2). split.
      * eapply visit_post_weaken; [|by eapply visit_post_app].
        simpl. intros r [<-|[? ?]]; (split; [|done]); [by left|by right].
      * intros d Hd Hr. apply elem_of_cons in Hd as [->|Hd]; [|by apply Hdeps].
        rewrite (vp_visited _ _ _ _ _ P2). by apply elem_of_union_l.
    + intros E2. destruct (IH _ _ E2) as (ks2 & P2 & Hdeps).
      exists ks2. split.
      * eapply visit_post_weaken; [|done]. simpl. intros r [? ?].
        split; [by right|done].
      * intros d Hd Hr. apply elem_of_cons in Hd as [->|Hd]; [congruence|].
        by apply Hdeps.
Qed.
Lemma visit_post_visit fuel :
  ∀ nm s s', registered nm → visit plugins fuel nm s = Some s' →
    ∃ ks, visit_post (eq nm) s s' ks ∧ nm ∈ s'.1.
Proof.
  induction fuel as [|fuel IH]; intros nm [visited result] s' Hreg; [done|].
  simpl. case_decide as Hin.
  { intros [= <-]. exists []. split; [apply visit_post_nil | done]. }
  destruct (get nm plugins) as [plugin|] eqn:Hget;
    [|by unfold mem in Hreg; rewrite Hget in Hreg].
  destruct (visit_deps plugins _ _ _) as [[visited' result']|] eqn:E; [|done].
  intros [= <-].
  destruct (visit_deps_post _ IH _ _ _ E)
    as (ks & [(new & R & F) Vs Fr Nd From Ord] & Hdeps).
  simpl in *. exists (ks ++ [nm]).
  assert (nm ∉ ks) as Hnm.
  { intros Hk. apply Fr in Hk. apply Hk, elem_of_union_l. by apply elem_of_singleton. }
  assert (∀ k, k ∈ ks → reaches nm k) as Hreach.
  { intros k Hk. destruct (From k Hk) as (r & [Hr Hrr] & Hrk).
    eapply rtc_l; [|exact Hrk]. by exists plugin. }
  split; [split|]; simpl.
  - exists (new ++ [plugin]). split; [by rewrite R, app_assoc|].
    apply Forall2_app; [done|]. by repeat constructor.
  - rewrite Vs, list_to_set_app_L. set_solver.
  - intros k Hk. apply elem_of_app in Hk as [Hk|Hk].
    + apply Fr in Hk. set_solver.
    + apply list_elem_of_singleton in Hk as ->. done.
  - apply NoDup_app. split; [done|]. split; [|apply NoDup_singleton].
    intros k Hk1 Hk2. apply list_elem_of_singleton in Hk2 as ->. done.
  - intros k Hk. exists nm. split; [done|].
    apply elem_of_app in Hk as [Hk|Hk]; [by apply Hreach|].
    apply list_elem_of_singleton in Hk as ->. apply rtc_refl.
  - intros i k d Hi He. apply lookup_app_Some in Hi as [Hi|[Hle Hi]].
    + destruct (Ord i k d Hi He) as [Hd|[(j & Hj & Hd)|?]]; [| |by right; right].
      * apply elem_of_union in Hd as [Hd|Hd]; [|by left].
        apply elem_of_singleton in Hd as ->. right; right.
        apply Hreach. apply list_elem_of_lookup. eauto.
      * right; left. exists j. split; [done|]. by apply lookup_app_l_Some.
    + apply list_lookup_singleton_Some in Hi as [Hi ->].
      destruct He as (p & Hp & Hd & Hr). rewrite Hget in Hp. injection Hp as <-.
      specialize (Hdeps d Hd Hr). rewrite Vs in Hdeps.
      apply elem_of_union in Hdeps as [Hdeps|Hdeps].
      * apply elem_of_union in Hdeps as [Hdeps|Hdeps]; [|by left].
        apply elem_of_singleton in Hdeps as ->. right; right. apply rtc_refl.
      * right; left.
        apply elem_of_list_to_set, list_elem_of_lookup in Hdeps as [j Hj].
        exists j. split; [|by apply lookup_app_l_Some].
        apply lookup_lt_Some in Hj. lia.
  - rewrite Vs. apply elem_of_union_l, elem_of_union_l. by apply elem_of_singleton.
Qed.

(** The outer loop is the inner one, on names that are all registered. *)
Lemma visit_all_deps visit' names s :
  Forall (λ nm, registered nm) names →
  visit_all visit' names s = visit_deps plugins visit' names s.
Proof.
  intros Hall. revert s. induction Hall as [|nm names Hnm _ IH]; intros s; simpl.
  - done.
  - rewrite Hnm. destruct (visit' nm s); [apply IH | done].
Qed.

Lemma keys_registered : Forall (λ nm, registered nm) (keys plugins).
Proof. apply Forall_forall. intros nm. apply mem_keys. Qed.

(** The result of the orderer: the plugins registered under [ks], where
    [ks] lists every key once and puts a dependency first unless the
    dependency itself needs the dependent. *)
Lemma sort_post l :
  _sort_by_dependencies plugins = Some l →
  ∃ ks, finishes ks l
        ∧ NoDup ks
        ∧ (∀ k, k ∈ ks ↔ k ∈ keys plugins)
        ∧ (∀ i k d, ks !! i = Some k → edge k d →
             (∃ j, j < i ∧ ks !! j = Some d) ∨ reaches d k).
Proof.
  unfold _sort_by_dependencies, sort_with_fuel.
  rewrite visit_all_deps by apply keys_registered.
  destruct (visit_deps plugins _ _ _) as [[v r]|] eqn:E; [|done].
  intros [= <-].
  destruct (visit_deps_post _ (visit_post_visit _) _ _ _ E)
    as (ks & [(new & R & F) Vs Fr Nd From Ord] & Hall).
  simpl in *. subst r. exists ks. split; [done|]. split; [done|]. split.
  - intros k. split.
    + intros Hk. apply list_elem_of_lookup in Hk as [i Hi].
      destruct (Forall2_lookup_l _ _ _ _ _ F Hi) as (p & _ & Hp).
      apply mem_keys. unfold mem. by rewrite Hp.
    + intros Hk. specialize (Hall k Hk). rewrite Vs in Hall.
      apply elem_of_union in Hall as [Hall|Hall].
      * by apply not_elem_of_empty in Hall.
      * by apply elem_of_list_to_set in Hall.
      * by apply mem_keys.
  - intros i k d Hi He. destruct (Ord i k d Hi He) as [Hd|[?|?]]; auto.
    by apply not_elem_of_empty in Hd.
Qed.

Lemma sort_permutation l :
  NoDup (keys plugins) →
  _sort_by_dependencies plugins = Some l → l ≡ₚ values plugins.
Proof.
  intros Hnd Hs. destruct (sort_post l Hs) as (ks & F & Nd & Hks & _).
  rewrite <- (omap_get _ _ _ F), <- (omap_get _ _ _ (get_keys_values _ Hnd)).
  apply omap_Permutation. by apply NoDup_Permutation.
Qed.

End sort_facts.

(** ** Running the loader *)

Section monad_facts.
Context {A : Type} (P : state → Prop).

Lemma preserves_ret (a : A) : preserves P (ret a).
Proof. by intros st. Qed.

Lemma preserves_raise (e : exn) : preserves P (raise (A:=A) e).
Proof. by intros st. Qed.

Lemma preserves_gets (f : state → A) : preserves P (gets f).
Proof. by intros st. Qed.

Lemma preserves_of_outcome (o : outcome A) : preserves P (of_outcome o).
Proof. by destruct o; intros st. Qed.

Lemma preserves_modify (f : state → state) :
  (∀ st, P st → P (f st)) → preserves P (modify f).
Proof. intros Hf st. apply Hf. Qed.

Lemma preserves_bind {B} (m : M B) (k : B → M A) :
  preserves P m → (∀ b, preserves P (k b)) → preserves P (bind m k).
Proof.
  intros Hm Hk st HP. unfold bind. specialize (Hm st HP).
  destruct (m st) as [[b|e] st1]; simpl in *; [by apply Hk | done].
Qed.

Lemma preserves_try (body : M A) (handler : exn → M A) :
  preserves P body → (∀ e, preserves P (handler e)) →
  preserves P (try_except body handler).
Proof.
  intros Hm Hh st HP. unfold try_except. specialize (Hm st HP).
  destruct (body st) as [[b|e] st1]; simpl in *; [done | by apply Hh].
Qed.
End monad_facts.

Lemma preserves_for_each {A} (P : state → Prop) (xs : list A) (body : A → M unit) :
  (∀ x, preserves P (body x)) → preserves P (for_each xs body).
Proof.
  intros Hb. induction xs as [|x xs IH]; simpl.
  - apply preserves_ret.
  - apply preserves_bind; [apply Hb | by intros _].
Qed.

(** Unfold the monad down to the state transformer. *)
Ltac run :=
  cbv [bind try_except ret raise gets modify of_outcome
       new set_app set_enabled delitem
       call_on_load call_init_app call_on_unload call_healthcheck];
  simpl.

Lemma register_eq c source st :
  _register_plugin_class c source st = (Ok tt, registration c st).
Proof.
  unfold _register_plugin_class, registration. run.
  destruct (ExpotionPlugin.__init__ c) as [[]|msg]; simpl; [|done].
  case_bool_decide; [done|]. cbn.
  destruct (mem (name c) (_plugins st)); [done|].
  by destruct (on_load c) as [[]|msg].
Qed.

Section discovery_facts.
Variable P : state → Prop.
Hypothesis P_registration : ∀ c st, P st → P (registration c st).

Lemma preserves_register c source :
  preserves P (_register_plugin_class c source).
Proof. intros st HP. rewrite register_eq. by apply P_registration. Qed.

Lemma preserves_entry_points env : preserves P (_load_from_entry_points env).
Proof.
  apply preserves_try; [|intros; apply preserves_ret].
  apply preserves_bind; [apply preserves_of_outcome|]. intros eps.
  apply preserves_for_each. intros ep.
  apply preserves_try; [|intros; apply preserves_ret].
  apply preserves_bind; [apply preserves_of_outcome|]. intros c.
  apply preserves_register.
Qed.

Lemma preserves_register_first attrs source :
  preserves P (register_first attrs source).
Proof.
  induction attrs as [|[c|] attrs IH]; simpl;
    [apply preserves_ret | apply preserves_register | done].
Qed.

Lemma preserves_directory env : preserves P (_load_from_directory env).
Proof.
  apply preserves_bind; [apply preserves_gets|]. intros d.
  destruct (_ || _); [apply preserves_ret|].
  apply preserves_bind; [apply preserves_of_outcome|]. intros entries.
  apply preserves_for_each. intros e.
  destruct (negb _); [apply preserves_ret|].
  destruct (_ || _); [apply preserves_ret|].
  destruct (match plugin_py e with Some f => Some f | None => init_py e end)
    as [f|]; [|apply preserves_ret].
  apply preserves_try; [|intros; apply preserves_ret].
  destruct f; [apply preserves_ret | apply preserves_raise |].
  apply preserves_register_first.
Qed.

Lemma preserves_discover env : preserves P (discover env).
Proof.
  apply preserves_bind; [apply preserves_entry_points|]. intros _.
  apply preserves_bind; [apply preserves_gets|]. intros d.
  destruct (truthy d); [apply preserves_directory | apply preserves_ret].
Qed.
End discovery_facts.

Lemma load_all_discover env st :
  load_all env st = bind (discover env) (λ _, _init_all_plugins) st.
Proof.
  unfold load_all, discover, bind.
  destruct (_load_from_entry_points env st) as [[[]|e] st1]; [|done].
  destruct (gets _plugins_dir st1) as [[d|e] st2]; [|done].
  by destruct (truthy d).
Qed.

(** ** The initialization pass *)

Section init_facts.
Variable a : Flask.

Local Abbreviation init_body := (λ plugin : plugin_ref,
  try_except (set_app plugin (Some a) >> call_init_app plugin a)
             (λ e, set_enabled plugin false)).

Lemma init_body_eq plugin st : init_body plugin st = (Ok tt, init_one a st plugin).
Proof.
  run. unfold init_one, initialized.
  destruct (ExpotionPlugin.init_app (ref_class plugin)) as [[]|msg]; cbn; [done|].
  by rewrite list_alter_alter_eq.
Qed.

Lemma init_loop_eq l st :
  for_each l init_body st = (Ok tt, foldl (init_one a) st l).
Proof.
  revert st. induction l as [|plugin l IH]; intros st; [done|].
  cbn [for_each foldl]. unfold bind at 1. rewrite init_body_eq. apply IH.
Qed.

Lemma init_fold_fields l st :
  let st' := foldl (init_one a) st l in
  _plugins st' = _plugins st ∧ _app st' = _app st
  ∧ _disabled_plugins st' = _disabled_plugins st
  ∧ _plugins_dir st' = _plugins_dir st
  ∧ length (heap st') = length (heap st)
  ∧ trace st' = trace st ++ ((λ p, CallInitApp (ref_id p) a) <$> l).
Proof.
  revert st. induction l as [|plugin l IH]; intros st; simpl.
  - by rewrite app_nil_r.
  - destruct (IH (init_one a st plugin)) as (-> & -> & -> & -> & -> & ->).
    cbn. rewrite length_alter, <- app_assoc. done.
Qed.

Lemma init_fold_heap_other l st i :
  i ∉ ref_id <$> l → heap (foldl (init_one a) st l) !! i = heap st !! i.
Proof.
  revert st. induction l as [|plugin l IH]; intros st Hi; [done|].
  rewrite fmap_cons in Hi. apply not_elem_of_cons in Hi as [Hne Hi].
  simpl. rewrite IH by done. cbn. by apply list_lookup_alter_ne.
Qed.

Lemma init_fold_heap l st plugin :
  NoDup (ref_id <$> l) → plugin ∈ l →
  heap (foldl (init_one a) st l) !! ref_id plugin
  = initialized a (ref_class plugin) <$> heap st !! ref_id plugin.
Proof.
  revert st. induction l as [|q l IH]; intros st Hnd Hin.
  - by apply elem_of_nil in Hin.
  - rewrite fmap_cons in Hnd. apply NoDup_cons in Hnd as [Hq Hnd].
    apply elem_of_cons in Hin as [->|Hin]; simpl.
    + rewrite init_fold_heap_other by done. cbn. apply list_lookup_alter_eq.
    + rewrite IH by done. cbn. rewrite list_lookup_alter_ne; [done|].
      intros Heq. apply Hq. rewrite Heq. by apply list_elem_of_fmap_2.
Qed.

Lemma init_all_eq st sorted :
  _app st = Some a → _sort_by_dependencies (_plugins st) = Some sorted →
  _init_all_plugins st = (Ok tt, foldl (init_one a) st sorted).
Proof.
  intros Ha Hs. unfold _init_all_plugins, sort_by_dependencies.
  unfold bind at 1. unfold gets at 1. rewrite Ha.
  unfold bind at 1. unfold bind at 1. unfold gets at 1. rewrite Hs.
  unfold ret at 1. apply init_loop_eq.
Qed.
End init_facts.

Lemma init_all_unbound st : _app st = None → _init_all_plugins st = (Ok tt, st).
Proof. intros Ha. unfold _init_all_plugins. run. by rewrite Ha. Qed.

(** ** The health check *)

Section health_facts.

Local Abbreviation health_step := (λ (results : dict payload) (e : string * plugin_ref),
  set e.1 (health_status e.2) results).

Lemma healthcheck_loop_eq l results st :
  for_fold l results (λ results item,
    let '(nm, plugin) := item in
    try_except
      (r <- call_healthcheck plugin ;; ret (set nm r results))
      (λ e, ret (set nm (error_status e) results))) st
  = (Ok (foldl health_step results l),
     foldl (λ st e, log_call (CallHealthcheck (ref_id e.2)) st) st l).
Proof.
  revert results st. induction l as [|[nm plugin] l IH]; intros results st; [done|].
  cbn [for_fold foldl]. unfold bind at 1.
  replace (try_except _ _ st) with
    (Ok (health_step results (nm, plugin)),
     log_call (CallHealthcheck (ref_id plugin)) st).
  - apply IH.
  - run. unfold health_status.
    by destruct (ExpotionPlugin.healthcheck (ref_class plugin)).
Qed.

Lemma health_fold_keys l results nm :
  nm ∈ keys (foldl health_step results l) ↔ nm ∈ keys l ∨ nm ∈ keys results.
Proof.
  revert results. induction l as [|[k plugin] l IH]; intros results.
  - simpl. split; [by right|]. intros [Hnil|?]; [|done].
    by apply elem_of_nil in Hnil.
  - cbn [foldl]. rewrite IH, keys_set. cbn [fst snd].
    change (keys ((k, plugin) :: l)) with (k :: keys l).
    rewrite elem_of_cons. tauto.
Qed.

Lemma health_fold_get l results nm :
  NoDup (keys l) →
  get nm (foldl health_step results l)
  = match get nm l with
    | Some plugin => Some (health_status plugin)
    | None => get nm results
    end.
Proof.
  revert results. induction l as [|[k plugin] l IH]; intros results Hnd; [done|].
  change (keys ((k, plugin) :: l)) with (k :: keys l) in Hnd.
  apply NoDup_cons in Hnd as [Hk Hnd].
  simpl. rewrite IH by done. case_decide as Heq.
  - subst k. apply get_None_keys in Hk. rewrite Hk. apply get_set_eq.
  - destruct (get nm l); [done|]. by apply get_set_ne.
Qed.

Lemma health_fold_NoDup l results :
  NoDup (keys results) → NoDup (keys (foldl health_step results l)).
Proof.
  revert results. induction l as [|[k plugin] l IH]; intros results Hnd; [done|].
  simpl. apply IH. clear IH.
  induction results as [|[k' v'] results IH]; simpl.
  - apply NoDup_singleton.
  - change (keys ((k', v') :: results)) with (k' :: keys results) in Hnd.
    apply NoDup_cons in Hnd as [Hk' Hnd].
    case_decide; subst.
    + change (NoDup (k' :: keys results)). by apply NoDup_cons.
    + change (NoDup (k' :: keys (set k (health_status plugin) results))).
      apply NoDup_cons. split; [|by apply IH].
      intros Hin. apply keys_set in Hin as [?|?]; done.
Qed.

Lemma health_fold_state (l : dict plugin_ref) st :
  _plugins (foldl (λ st (e : string * plugin_ref),
              log_call (CallHealthcheck (ref_id e.2)) st) st l) = _plugins st
  ∧ heap (foldl (λ st (e : string * plugin_ref),
              log_call (CallHealthcheck (ref_id e.2)) st) st l) = heap st.
Proof.
  revert st. induction l as [|e l IH]; intros st; [done|].
  cbn [foldl]. destruct (IH (log_call (CallHealthcheck (ref_id e.2)) st)) as [E1 E2].
  by rewrite E1, E2.
Qed.
End health_facts.

(** ** Registration *)

Section registration_facts.
Variables (c : plugin_class) (st : state).

Local Abbreviation plugin := {| ref_id := length (heap st); ref_class := c |}.

Lemma registration_accepted :
  accepted c st →
  registration c st
  = with_plugins (set (name c) plugin)
      (log_call (CallOnLoad (length (heap st)))
         (with_heap (λ h, h ++ [fresh]) st)).
Proof.
  intros (Hi & Hd & Hg & Hl). unfold registration.
  by rewrite Hi, Hl, Hg, bool_decide_eq_false_2.
Qed.

Lemma registration_rejected :
  ¬ accepted c st → _plugins (registration c st) = _plugins st.
Proof.
  intros Hn. unfold registration.
  destruct (ExpotionPlugin.__init__ c) as [[]|msg] eqn:Hi; [|done].
  case_bool_decide as Hd; [done|].
  destruct (mem (name c) (_plugins st)) eqn:Hm; [done|].
  destruct (on_load c) as [[]|msg] eqn:Hl; [|done].
  by destruct Hn.
Qed.

Lemma registration_fields :
  _app (registration c st) = _app st
  ∧ _disabled_plugins (registration c st) = _disabled_plugins st
  ∧ _plugins_dir (registration c st) = _plugins_dir st.
Proof.
  unfold registration.
  destruct (ExpotionPlugin.__init__ c) as [[]|msg]; [|done].
  case_bool_decide; [done|].
  destruct (mem (name c) (_plugins st)); [done|].
  by destruct (on_load c) as [[]|msg].
Qed.

(** Registration allocates at most one object and touches no other. *)
Lemma registration_heap :
  heap (registration c st) = heap st
  ∨ heap (registration c st) = heap st ++ [fresh].
Proof.
  unfold registration.
  destruct (ExpotionPlugin.__init__ c) as [[]|msg]; [|by left].
  case_bool_decide; [by right|].
  destruct (mem (name c) (_plugins st)); [by right|].
  destruct (on_load c) as [[]|msg]; by right.
Qed.

Lemma registration_heap_lookup i o :
  heap st !! i = Some o → heap (registration c st) !! i = Some o.
Proof.
  intros Hi. destruct registration_heap as [->| ->]; [done|].
  by apply lookup_app_l_Some.
Qed.

(** Registration calls no hook but [on_load], and that one at most once. *)
Lemma registration_trace :
  trace (registration c st) = trace st
  ∨ trace (registration c st) = trace st ++ [CallOnLoad (length (heap st))].
Proof.
  unfold registration.
  destruct (ExpotionPlugin.__init__ c) as [[]|msg]; [|by left].
  case_bool_decide; [by left|].
  destruct (mem (name c) (_plugins st)); [by left|].
  destruct (on_load c) as [[]|msg]; by right.
Qed.
End registration_facts.

(** C2.  Registering a candidate whose name is already a key of the registry
    returns normally and changes nothing: the registry is the same dictionary
    (same instance under the name, same size), no hook of the candidate is
    called (the trace is the same), and every existing object is untouched. *)
Theorem register_duplicate_unchanged st c source :
  mem (name c) (_plugins st) = true →
  ∃ st', _register_plugin_class c source st = (Ok tt, st')
    ∧ _plugins st' = _plugins st
    ∧ get_plugin st' (name c) = get_plugin st (name c)
    ∧ len (_plugins st') = len (_plugins st)
    ∧ trace st' = trace st
    ∧ (∀ i o, heap st !! i = Some o → heap st' !! i = Some o).
Proof.
  intros Hm. exists (registration c st). split; [apply register_eq|].
  assert (_plugins (registration c st) = _plugins st) as Hp.
  { apply registration_rejected. intros (_ & _ & Hg & _). congruence. }
  unfold get_plugin. rewrite Hp. repeat split; [|apply registration_heap_lookup].
  unfold registration.
  destruct (ExpotionPlugin.__init__ c) as [[]|msg]; [|done].
  case_bool_decide; [done|]. by rewrite Hm.
Qed.

Lemma register_duplicate_unchanged_witness :
  let st := Examples.discovered_AB in
  let c := Examples.failing_on_load "A" in
  ∃ st', _register_plugin_class c "pip:a2" st = (Ok tt, st')
    ∧ _plugins st' = _plugins st
    ∧ get_plugin st' (name c) = get_plugin st (name c)
    ∧ len (_plugins st') = len (_plugins st)
    ∧ trace st' = trace st
    ∧ (∀ i o, heap st !! i = Some o → heap st' !! i = Some o).
Proof.
  apply (register_duplicate_unchanged Examples.discovered_AB
           (Examples.failing_on_load "A") "pip:a2").
  vm_compute. reflexivity.
Defined.

(** C5, as it holds.  The empty name gets no special treatment: a candidate
    with the empty name that registration accepts (its construction and
    [on_load] return, the empty name is neither disabled nor registered) is
    inserted under the empty key; any other candidate with the empty name
    leaves the registry as it was. *)
Theorem register_empty_name st c source :
  name c = EmptyString →
  ∃ st', _register_plugin_class c source st = (Ok tt, st')
    ∧ (accepted c st →
         get_plugin st' EmptyString = Some {| ref_id := length (heap st); ref_class := c |})
    ∧ (¬ accepted c st → _plugins st' = _plugins st).
Proof.
  intros Hn. exists (registration c st). split; [apply register_eq|]. split.
  - intros Ha. rewrite registration_accepted by done.
    unfold get_plugin. cbn. rewrite Hn. apply get_set_eq.
  - apply registration_rejected.
Qed.

Lemma register_empty_name_witness :
  let st := __init__ None None in
  let c := subclass EmptyString "1.0" [] in
  ∃ st', _register_plugin_class c "unknown" st = (Ok tt, st')
    ∧ (accepted c st →
         get_plugin st' EmptyString = Some {| ref_id := length (heap st); ref_class := c |})
    ∧ (¬ accepted c st → _plugins st' = _plugins st).
Proof.
  apply (register_empty_name (__init__ None None) (subclass EmptyString "1.0" []) "unknown").
  reflexivity.
Defined.

(** C5, as stated, fails: on a new loader a plugin class with the empty name
    is registered under the empty key. *)
Lemma register_accepts_empty_name :
  ¬ AsStated.empty_name_rejected (__init__ None None) (subclass EmptyString "1.0" []).
Proof. intros H. specialize (H eq_refl). vm_compute in H. discriminate H. Qed.

(** C9.  If the constructor of a candidate returns and its [on_load] raises,
    registration returns normally, having called [on_load] at most once, and
    the registry is unchanged; a later candidate of the same name that registration accepts
    is then inserted under that name. *)
Theorem register_on_load_failure_atomic st c source msg :
  ExpotionPlugin.__init__ c = Returns tt →
  on_load c = Raises msg →
  ∃ st', _register_plugin_class c source st = (Ok tt, st')
    ∧ _plugins st' = _plugins st
    ∧ (trace st' = trace st
       ∨ trace st' = trace st ++ [CallOnLoad (length (heap st))])
    ∧ (∀ i o, heap st !! i = Some o → heap st' !! i = Some o)
    ∧ ∀ c2 source2,
        name c2 = name c → accepted c2 st →
        ∃ st'', _register_plugin_class c2 source2 st' = (Ok tt, st'')
          ∧ get_plugin st'' (name c)
            = Some {| ref_id := length (heap st'); ref_class := c2 |}.
Proof.
  intros Hi Hl. exists (registration c st). split; [apply register_eq|].
  assert (_plugins (registration c st) = _plugins st) as Hp.
  { apply registration_rejected. intros (_ & _ & _ & Hl'). congruence. }
  split; [done|]. split; [apply registration_trace|].
  split; [apply registration_heap_lookup|].
  intros c2 source2 Hn (Hi2 & Hd2 & Hg2 & Hl2).
  exists (registration c2 (registration c st)). split; [apply register_eq|].
  destruct (registration_fields c st) as (_ & Hdis & _).
  rewrite registration_accepted.
  - unfold get_plugin. cbn. rewrite Hn. apply get_set_eq.
  - unfold accepted. by rewrite Hdis, Hp.
Qed.

Lemma register_on_load_failure_atomic_witness :
  let st := __init__ None None in
  let c := Examples.failing_on_load "A" in
  ∃ st', _register_plugin_class c "pip:a" st = (Ok tt, st')
    ∧ _plugins st' = _plugins st
    ∧ (trace st' = trace st
       ∨ trace st' = trace st ++ [CallOnLoad (length (heap st))])
    ∧ (∀ i o, heap st !! i = Some o → heap st' !! i = Some o)
    ∧ ∀ c2 source2,
        name c2 = name c → accepted c2 st →
        ∃ st'', _register_plugin_class c2 source2 st' = (Ok tt, st'')
          ∧ get_plugin st'' (name c)
            = Some {| ref_id := length (heap st'); ref_class := c2 |}.
Proof.
  apply (register_on_load_failure_atomic (__init__ None None)
           (Examples.failing_on_load "A") "pip:a" "load failed");
    reflexivity.
Defined.

(** ** The claims about the dependency orderer *)







(** ** The claims about initialization *)



(** ** The claims about [load_all] *)

Lemma Forall_set {V} (Q : string * V → Prop) k v (d : dict V) :
  Forall Q d → Q (k, v) → Forall Q (set k v d).
Proof.
  intros Hd Hkv. induction Hd as [|[k' v'] d Hx Hd IH]; simpl.
  - by constructor.
  - case_decide; constructor; auto.
Qed.

Lemma registration_plugins c st :
  _plugins (registration c st)
  = if decide (accepted c st)
    then set (name c) {| ref_id := length (heap st); ref_class := c |} (_plugins st)
    else _plugins st.
Proof.
  case_decide as Ha.
  - by rewrite registration_accepted.
  - by apply registration_rejected.
Qed.

Lemma registration_pristine c st : pristine st → pristine (registration c st).
Proof.
  intros Hp. unfold pristine.
  assert (∀ p, enabled st p = true ∧ app st p = None →
               enabled (registration c st) p = true
               ∧ app (registration c st) p = None) as Hold.
  { intros p. unfold enabled, app.
    destruct (heap st !! ref_id p) as [o|] eqn:Ho; [|by intros [? _]].
    by rewrite (registration_heap_lookup c st _ _ Ho). }
  assert (Forall (λ e, enabled (registration c st) e.2 = true
                       ∧ app (registration c st) e.2 = None) (_plugins st)) as Hp'.
  { eapply Forall_impl; [exact Hp|]. intros e. apply Hold. }
  rewrite registration_plugins. case_decide as Ha; [|done].
  apply Forall_set; [done|]. simpl.
  rewrite registration_accepted by done. unfold enabled, app. cbn.
  by rewrite list_lookup_middle.
Qed.

Lemma init_all_fields st :
  _plugins (_init_all_plugins st).2 = _plugins st
  ∧ _disabled_plugins (_init_all_plugins st).2 = _disabled_plugins st.
Proof.
  destruct (_app st) as [a|] eqn:Ha.
  - destruct (sort_terminates (_plugins st)) as [sorted Hs].
    rewrite (init_all_eq a st sorted Ha Hs). simpl.
    by destruct (init_fold_fields a sorted st) as (-> & _ & -> & _).
  - by rewrite init_all_unbound.
Qed.

Section without_app.
Variable t0 : list event.

Let P (st : state) : Prop :=
  _app st = None ∧ pristine st
  ∧ ∃ calls, trace st = t0 ++ calls ∧ Forall is_on_load calls.

Lemma unbound_registration c st : P st → P (registration c st).
Proof.
  intros (Ha & Hp & calls & Ht & Hc). split; [|split].
  - by destruct (registration_fields c st) as (-> & _).
  - by apply registration_pristine.
  - destruct (registration_trace c st) as [-> | ->].
    + by exists calls.
    + exists (calls ++ [CallOnLoad (length (heap st))]). split.
      * by rewrite Ht, app_assoc.
      * apply Forall_app. split; [done|]. by repeat constructor.
Qed.

Lemma unbound_discover env st : P st → P (discover env st).2.
Proof. apply preserves_discover. apply unbound_registration. Qed.
End without_app.



Section disabled.
Variable nm : string.

Let P (st : state) : Prop :=
  nm ∈ _disabled_plugins st ∧ get nm (_plugins st) = None ∧ keyed_by_name st.

Lemma disabled_registration c st : P st → P (registration c st).
Proof.
  intros (Hd & Hg & Hk). unfold P, keyed_by_name.
  destruct (registration_fields c st) as (_ & -> & _).
  rewrite registration_plugins. case_decide as Ha; [|done].
  split; [done|]. split.
  - rewrite get_set_ne; [done|]. intros Heq.
    destruct Ha as (_ & Hnd & _). by rewrite Heq in Hnd.
  - by apply Forall_set.
Qed.

Lemma disabled_load_all env st : P st → P (load_all env st).2.
Proof.
  intros HP. rewrite load_all_discover. unfold bind.
  pose proof (preserves_discover P disabled_registration env st HP) as HP1.
  destruct (discover env st) as [[[]|e] st1]; [|done].
  simpl in HP1. unfold P, keyed_by_name.
  by destruct (init_all_fields st1) as [-> ->].
Qed.
End disabled.

(** C4, as it holds.  If a name is in the disable-list and not yet a key of
    the registry when [load_all] starts, then it is not a key afterwards,
    whatever the two sources discover: [get_plugin] finds nothing under it and
    no plugin of that name is among the active ones. *)
Theorem load_all_skips_disabled st env nm :
  nm ∈ _disabled_plugins st → get_plugin st nm = None → keyed_by_name st →
  get_plugin (load_all env st).2 nm = None
  ∧ ∀ p, p ∈ get_all_plugins (load_all env st).2 → name (ref_class p) ≠ nm.
Proof.
  intros Hd Hg Hk.
  destruct (disabled_load_all nm env st) as (_ & Hg' & Hk'); [done|].
  split; [done|]. intros p Hp Hn.
  apply list_elem_of_filter in Hp as [_ Hp].
  apply list_elem_of_fmap in Hp as ([k p'] & -> & Hin). simpl in Hn.
  pose proof (proj1 (Forall_forall _ _) Hk' _ Hin) as Hkp. simpl in Hkp.
  apply get_None_keys in Hg'. apply Hg'.
  apply list_elem_of_fmap. exists (k, p'). split; [simpl; congruence | done].
Qed.

Lemma load_all_skips_disabled_witness :
  let st := __init__ (Some Examples.app_without_X) None in
  get_plugin (load_all Examples.env_XY st).2 "X" = None
  ∧ ∀ p, p ∈ get_all_plugins (load_all Examples.env_XY st).2 →
         name (ref_class p) ≠ "X".
Proof.
  apply (load_all_skips_disabled
           (__init__ (Some Examples.app_without_X) None) Examples.env_XY "X").
  - vm_compute. left.
  - reflexivity.
  - vm_compute. constructor.
Defined.

(** C4, as stated, fails: a loader that loaded X before an application
    disabling X was bound still has X registered after the next
    [load_all]. *)
Lemma load_all_keeps_registered_disabled :
  ¬ AsStated.disabled_never_registered Examples.rebound Examples.env_XY.
Proof.
  intros H. specialize (H "X"). vm_compute in H.
  assert ("X" ∈ ["X"]) as Hin by left. specialize (H Hin). discriminate H.
Qed.

(** ** The claims about the health check and unloading *)

(** C7.  [healthcheck] returns normally whatever the health hooks do.  The
    keys of the mapping it returns are the names under which plugins are
    registered, each once; the enabled flags play no part.  A plugin is mapped
    to what its hook returns, and to the error status carrying the message of
    the exception when its hook raises.  The registry and the plugin objects
    are left as they were. *)
Theorem healthcheck_total st :
  NoDup (keys (_plugins st)) →
  ∃ results st',
    healthcheck st = (Ok results, st')
    ∧ (∀ nm, nm ∈ keys results ↔ nm ∈ keys (_plugins st))
    ∧ NoDup (keys results)
    ∧ (∀ nm p r, get_plugin st nm = Some p →
         ExpotionPlugin.healthcheck (ref_class p) = Returns r →
         get nm results = Some r)
    ∧ (∀ nm p msg, get_plugin st nm = Some p →
         ExpotionPlugin.healthcheck (ref_class p) = Raises msg →
         get nm results = Some [("status", "error"); ("message", msg)])
    ∧ _plugins st' = _plugins st ∧ heap st' = heap st.
Proof.
  intros Hnd. unfold healthcheck. unfold bind at 1, gets at 1.
  rewrite healthcheck_loop_eq. eexists _, _. split; [done|].
  split; [|split; [|split; [|split]]].
  - intros nm. rewrite health_fold_keys. split; [intros [?|Hnil]; [done|] | by left].
    by apply elem_of_nil in Hnil.
  - apply health_fold_NoDup. constructor.
  - intros nm p r Hget Hr. rewrite health_fold_get by done.
    unfold get_plugin in Hget. rewrite Hget. unfold health_status. by rewrite Hr.
  - intros nm p msg Hget Hr. rewrite health_fold_get by done.
    unfold get_plugin in Hget. rewrite Hget. unfold health_status. by rewrite Hr.
  - apply health_fold_state.
Qed.

Lemma healthcheck_total_witness :
  let st :=
    (_register_plugin_class (Examples.failing_health "H") "pip:h"
       Examples.discovered_AB).2 in
  ∃ results st',
    healthcheck st = (Ok results, st')
    ∧ (∀ nm, nm ∈ keys results ↔ nm ∈ keys (_plugins st))
    ∧ NoDup (keys results)
    ∧ (∀ nm p r, get_plugin st nm = Some p →
         ExpotionPlugin.healthcheck (ref_class p) = Returns r →
         get nm results = Some r)
    ∧ (∀ nm p msg, get_plugin st nm = Some p →
         ExpotionPlugin.healthcheck (ref_class p) = Raises msg →
         get nm results = Some [("status", "error"); ("message", msg)])
    ∧ _plugins st' = _plugins st ∧ heap st' = heap st.
Proof.
  apply (healthcheck_total
           (_register_plugin_class (Examples.failing_health "H") "pip:h"
              Examples.discovered_AB).2).
  apply (bool_decide_unpack _). vm_compute. exact I.
Defined.

Section unload_facts.
Variables (st : state) (nm : string).

Lemma unload_absent :
  get nm (_plugins st) = None → unload_plugin nm st = (Ok false, st).
Proof. intros Hg. unfold unload_plugin. run. by rewrite Hg. Qed.

Lemma unload_failing p msg :
  get nm (_plugins st) = Some p → on_unload (ref_class p) = Raises msg →
  unload_plugin nm st = (Ok false, log_call (CallOnUnload (ref_id p)) st).
Proof. intros Hg Hu. unfold unload_plugin. run. by rewrite Hg, Hu. Qed.

Lemma unload_done p :
  get nm (_plugins st) = Some p → on_unload (ref_class p) = Returns tt →
  unload_plugin nm st
  = (Ok true,
     with_plugins (remove nm)
       (with_heap (alter disable (ref_id p))
          (log_call (CallOnUnload (ref_id p)) st))).
Proof.
  intros Hg Hu. unfold unload_plugin. run. rewrite Hg, Hu. cbn -[remove].
  assert (mem nm (_plugins st) = true) as -> by (by unfold mem; rewrite Hg).
  done.
Qed.
End unload_facts.


(** ** Well-formedness is an invariant of the loader *)

Lemma wf_new a d : wf (__init__ a d).
Proof.
  assert (∀ st, _plugins st = [] → wf st) as Hempty.
  { intros st Hp. unfold wf, keyed_by_name. rewrite Hp.
    repeat split; constructor. }
  unfold __init__. destruct a; by apply Hempty.
Qed.

Lemma wf_registration c st : wf st → wf (registration c st).
Proof.
  intros (Hk & Hids & Halloc & Hnames). unfold wf, keyed_by_name.
  assert (length (heap st) ≤ length (heap (registration c st))) as Hlen.
  { destruct (registration_heap c st) as [-> | ->]; [done|].
    rewrite length_app. lia. }
  rewrite registration_plugins. case_decide as Ha.
  - pose proof Ha as (_ & _ & Hm & _).
    assert (get (name c) (_plugins st) = None) as Hg.
    { unfold mem in Hm. by destruct (get (name c) (_plugins st)). }
    rewrite (set_fresh _ _ _ Hg). unfold keys, values.
    rewrite !fmap_app. simpl. split; [|split; [|split]].
    + apply NoDup_app. split; [done|]. split; [|apply NoDup_singleton].
      intros k Hin ->%list_elem_of_singleton. by apply get_None_keys in Hg.
    + apply NoDup_app. split; [done|]. split; [|apply NoDup_singleton].
      intros i Hin ->%list_elem_of_singleton.
      apply list_elem_of_fmap in Hin as (p & Hi & Hin).
      apply list_elem_of_fmap in Hin as (e & -> & Hin).
      pose proof (proj1 (Forall_forall _ _) Halloc e Hin) as Hlt.
      simpl in Hlt. lia.
    + apply Forall_app. split.
      * eapply Forall_impl; [exact Halloc|]. simpl. intros e He. lia.
      * repeat constructor. simpl. rewrite registration_accepted by done.
        cbn. rewrite length_app. simpl. lia.
    + apply Forall_app. split; [done|]. by repeat constructor.
  - split; [done|]. split; [done|]. split; [|done].
    eapply Forall_impl; [exact Halloc|]. simpl. intros e He. lia.
Qed.

Lemma wf_init_all st : wf st → wf (_init_all_plugins st).2.
Proof.
  intros Hwf. destruct (_app st) as [a|] eqn:Ha.
  - destruct (sort_terminates (_plugins st)) as [sorted Hs].
    rewrite (init_all_eq a st sorted Ha Hs). simpl.
    destruct (init_fold_fields a sorted st) as (Hp & _ & _ & _ & Hl & _).
    unfold wf, keyed_by_name in *. by rewrite Hp, Hl.
  - by rewrite init_all_unbound.
Qed.

Lemma wf_load_all env st : wf st → wf (load_all env st).2.
Proof.
  intros Hwf. rewrite load_all_discover. unfold bind.
  pose proof (preserves_discover wf wf_registration env st Hwf) as Hwf1.
  destruct (discover env st) as [[[]|e] st1]; [|done].
  by apply wf_init_all.
Qed.

Lemma NoDup_fmap_filter {A B} (f : A → B) (Q : A → Prop)
    `{∀ x, Decision (Q x)} (l : list A) :
  NoDup (f <$> l) → NoDup (f <$> filter Q l).
Proof.
  intros Hnd. eapply sublist_NoDup; [exact Hnd|].
  apply fmap_sublist, sublist_filter.
Qed.

Lemma Forall_filter_sub {A} (R Q : A → Prop) `{∀ x, Decision (Q x)} (l : list A) :
  Forall R l → Forall R (filter Q l).
Proof.
  intros HR. apply Forall_forall. intros x Hx.
  apply list_elem_of_filter in Hx as [_ Hx].
  by apply (proj1 (Forall_forall _ _) HR).
Qed.

Lemma wf_unload nm st : wf st → wf (unload_plugin nm st).2.
Proof.
  intros (Hk & Hids & Halloc & Hnames).
  destruct (get nm (_plugins st)) as [p|] eqn:Hg.
  - destruct (on_unload (ref_class p)) as [[]|msg] eqn:Hu.
    + rewrite (unload_done st nm p Hg Hu). unfold wf, keyed_by_name.
      cbn -[remove]. rewrite length_alter. unfold remove, keys, values.
      split; [|split; [|split]].
      * by apply NoDup_fmap_filter.
      * rewrite <- list_fmap_compose. apply NoDup_fmap_filter.
        by rewrite list_fmap_compose.
      * by apply Forall_filter_sub.
      * by apply Forall_filter_sub.
    + by rewrite (unload_failing st nm p msg Hg Hu).
  - by rewrite (unload_absent st nm Hg).
Qed.

(** ** The scenarios of the specification *)

Example sort_chain :
  _sort_by_dependencies Examples.chain
  = Some [Examples.pA; Examples.pB; Examples.pC].
Proof. vm_compute. reflexivity. Qed.

Example sort_cycle :
  _sort_by_dependencies Examples.cycle = Some [Examples.qB; Examples.qA].
Proof. vm_compute. reflexivity. Qed.

Example duplicate_keeps_first :
  let st := (load_all Examples.env_XY (__init__ None (Some "plugins"))).2 in
  get_plugin st "X" = Some {| ref_id := 0; ref_class := Examples.X |}
  ∧ keys (_plugins st) = ["X"; "Y"].
Proof. vm_compute. done. Qed.

Example init_failure_scenario :
  let st := (load_all Examples.env_AB (__init__ (Some Examples.plain_app) None)).2 in
  (enabled st <$> get_plugin st "A") = Some false
  ∧ (enabled st <$> get_plugin st "B") = Some true
  ∧ trace st = [CallOnLoad 0; CallOnLoad 1;
                CallInitApp 0 Examples.plain_app;
                CallInitApp 1 Examples.plain_app].
Proof. vm_compute. done. Qed.

(** ** More about registration *)

Lemma registration_keeps nm p c st :
  get nm (_plugins st) = Some p → get nm (_plugins (registration c st)) = Some p.
Proof.
  intros Hg. rewrite registration_plugins. case_decide as Ha; [|done].
  rewrite get_set_ne; [done|]. intros <-.
  destruct Ha as (_ & _ & Hm & _). unfold mem in Hm. by rewrite Hg in Hm.
Qed.

Lemma registration_mem nm c st :
  mem nm (_plugins st) = true → mem nm (_plugins (registration c st)) = true.
Proof.
  unfold mem. destruct (get nm (_plugins st)) as [p|] eqn:Hg; [|done].
  by rewrite (registration_keeps nm p c st Hg).
Qed.

Lemma registration_settles c st : ¬ accepted c (registration c st).
Proof.
  intros (Hi & Hd & Hm & Hl).
  destruct (registration_fields c st) as (_ & Hdis & _). rewrite Hdis in Hd.
  rewrite registration_plugins in Hm. case_decide as Ha.
  - unfold mem in Hm. by rewrite get_set_eq in Hm.
  - apply Ha. by repeat split.
Qed.

Lemma registration_stays_settled c c' st :
  ¬ accepted c st → ¬ accepted c (registration c' st).
Proof.
  intros Hn (Hi & Hd & Hm & Hl). apply Hn.
  destruct (registration_fields c' st) as (_ & Hdis & _). rewrite Hdis in Hd.
  split; [done|]. split; [done|]. split; [|done].
  destruct (mem (name c) (_plugins st)) eqn:Hm'; [|done].
  by rewrite (registration_mem _ c' st Hm') in Hm.
Qed.

(** X1.  Registration returns normally for every candidate.  It leaves the
    registry as it was or appends one entry, keyed by the name of the
    candidate, after all existing entries; the application, the disable-list
    and the plugins directory of the loader are not touched. *)
Theorem register_appends_at_most_one st c source :
  ∃ st', _register_plugin_class c source st = (Ok tt, st')
    ∧ (_plugins st' = _plugins st
       ∨ _plugins st'
         = _plugins st
           ++ [(name c, {| ref_id := length (heap st); ref_class := c |})])
    ∧ _app st' = _app st
    ∧ _disabled_plugins st' = _disabled_plugins st
    ∧ _plugins_dir st' = _plugins_dir st.
Proof.
  exists (registration c st). split; [apply register_eq|].
  destruct (registration_fields c st) as (-> & -> & ->).
  split; [|done]. rewrite registration_plugins. case_decide as Ha; [|by left].
  right. apply set_fresh. destruct Ha as (_ & _ & Hm & _).
  unfold mem in Hm. by destruct (get (name c) (_plugins st)).
Qed.

(** X2.  A candidate that registration accepts is found under its name
    afterwards: the entry is a new object, enabled and without application,
    it is the last key of the registry and is among the active plugins, and
    its [on_load] was called exactly once, nothing else. *)
Theorem register_accepted_lookup st c source :
  accepted c st →
  ∃ st', _register_plugin_class c source st = (Ok tt, st')
    ∧ get_plugin st' (name c)
      = Some {| ref_id := length (heap st); ref_class := c |}
    ∧ enabled st' {| ref_id := length (heap st); ref_class := c |} = true
    ∧ app st' {| ref_id := length (heap st); ref_class := c |} = None
    ∧ keys (_plugins st') = keys (_plugins st) ++ [name c]
    ∧ {| ref_id := length (heap st); ref_class := c |} ∈ get_all_plugins st'
    ∧ trace st' = trace st ++ [CallOnLoad (length (heap st))].
Proof.
  intros Ha. exists (registration c st). split; [apply register_eq|].
  assert (get (name c) (_plugins st) = None) as Hg.
  { destruct Ha as (_ & _ & Hm & _). unfold mem in Hm.
    by destruct (get (name c) (_plugins st)). }
  rewrite registration_accepted by done.
  unfold get_plugin, get_all_plugins, enabled, app. cbn.
  rewrite list_lookup_middle by done. rewrite (set_fresh _ _ _ Hg).
  split; [|split; [done|split; [done|split; [|split; [|done]]]]].
  - rewrite <- (set_fresh _ _ _ Hg). apply get_set_eq.
  - unfold keys. by rewrite fmap_app.
  - apply list_elem_of_filter. split.
    + by rewrite list_lookup_middle.
    + unfold values. rewrite fmap_app. apply elem_of_app. right. by left.
Qed.

Lemma register_accepted_lookup_witness :
  let st := Examples.discovered_AB in
  let c := Examples.X in
  ∃ st', _register_plugin_class c "pip:x" st = (Ok tt, st')
    ∧ get_plugin st' (name c)
      = Some {| ref_id := length (heap st); ref_class := c |}
    ∧ enabled st' {| ref_id := length (heap st); ref_class := c |} = true
    ∧ app st' {| ref_id := length (heap st); ref_class := c |} = None
    ∧ keys (_plugins st') = keys (_plugins st) ++ [name c]
    ∧ {| ref_id := length (heap st); ref_class := c |} ∈ get_all_plugins st'
    ∧ trace st' = trace st ++ [CallOnLoad (length (heap st))].
Proof.
  apply (register_accepted_lookup Examples.discovered_AB Examples.X "pip:x").
  apply (bool_decide_unpack _). vm_compute. exact I.
Defined.

(** X3.  A candidate whose name is in the disable-list is constructed and
    dropped: registration returns normally, the registry is as it was, and
    no hook is called, not even [on_load]. *)
Theorem register_disabled_dropped st c source :
  name c ∈ _disabled_plugins st →
  ∃ st', _register_plugin_class c source st = (Ok tt, st')
    ∧ _plugins st' = _plugins st
    ∧ trace st' = trace st
    ∧ (∀ i o, heap st !! i = Some o → heap st' !! i = Some o).
Proof.
  intros Hd. exists (registration c st). split; [apply register_eq|].
  split; [|split; [|apply registration_heap_lookup]].
  - apply registration_rejected. by intros (_ & Hn & _).
  - unfold registration.
    destruct (ExpotionPlugin.__init__ c) as [[]|msg]; [|done].
    by rewrite bool_decide_eq_true_2.
Qed.

Lemma register_disabled_dropped_witness :
  let st := __init__ (Some Examples.app_without_X) None in
  ∃ st', _register_plugin_class Examples.X "pip:x" st = (Ok tt, st')
    ∧ _plugins st' = _plugins st
    ∧ trace st' = trace st
    ∧ (∀ i o, heap st !! i = Some o → heap st' !! i = Some o).
Proof.
  apply (register_disabled_dropped
           (__init__ (Some Examples.app_without_X) None) Examples.X "pip:x").
  vm_compute. left.
Defined.

(** X4.  A candidate whose constructor raises has no effect at all:
    registration returns normally and the loader, the plugin objects and the
    trace are exactly as before. *)
Theorem register_constructor_failure st c source msg :
  ExpotionPlugin.__init__ c = Raises msg →
  _register_plugin_class c source st = (Ok tt, st).
Proof.
  intros Hi. rewrite register_eq. unfold registration. by rewrite Hi.
Qed.

Lemma register_constructor_failure_witness :
  _register_plugin_class (Fixtures.failing_constructor "F") "pip:f"
    Examples.discovered_AB
  = (Ok tt, Examples.discovered_AB).
Proof.
  apply (register_constructor_failure Examples.discovered_AB
           (Fixtures.failing_constructor "F") "pip:f" "cannot construct").
  reflexivity.
Defined.

(** X5.  Registering the same class twice in a row is the same, for the
    registry, as registering it once: whatever the first attempt did, the
    second adds nothing. *)
Theorem register_twice st c source source' :
  _plugins (_register_plugin_class c source'
              (_register_plugin_class c source st).2).2
  = _plugins (_register_plugin_class c source st).2.
Proof.
  rewrite !register_eq. simpl.
  apply registration_rejected, registration_settles.
Qed.

(** ** The two discovery passes in closed form *)

Lemma for_each_total {A} (xs : list A) (body : A → M unit)
    (step : state → A → state) st :
  (∀ x st, body x st = (Ok tt, step st x)) →
  for_each xs body st = (Ok tt, foldl step st xs).
Proof.
  intros Hb. revert st. induction xs as [|x xs IH]; intros st; [done|].
  cbn [for_each foldl]. unfold bind at 1. rewrite Hb. apply IH.
Qed.

Lemma register_all_omap {A} (f : A → option plugin_class) (xs : list A) st :
  foldl (λ st x, match f x with
                 | Some c => registration c st
                 | None => st
                 end) st xs
  = register_all (omap f xs) st.
Proof.
  revert st. induction xs as [|x xs IH]; intros st; [done|].
  cbn [foldl omap]. rewrite IH. unfold omap, list_omap at 2. fold (omap f xs).
  by destruct (f x).
Qed.

Lemma register_all_app cs1 cs2 st :
  register_all (cs1 ++ cs2) st = register_all cs2 (register_all cs1 st).
Proof. apply foldl_app. Qed.

Lemma register_all_fields cs st :
  _app (register_all cs st) = _app st
  ∧ _disabled_plugins (register_all cs st) = _disabled_plugins st
  ∧ _plugins_dir (register_all cs st) = _plugins_dir st.
Proof.
  revert st. induction cs as [|c cs IH]; intros st; [done|].
  change (register_all (c :: cs) st) with (register_all cs (registration c st)).
  destruct (IH (registration c st)) as (-> & -> & ->).
  apply registration_fields.
Qed.

Lemma register_first_eq attrs source st :
  register_first attrs source st
  = (Ok tt, match first_subclass attrs with
            | Some c => registration c st
            | None => st
            end).
Proof.
  induction attrs as [|[c|] attrs IH]; simpl; [done | apply register_eq | done].
Qed.

Lemma entry_points_eq env st :
  _load_from_entry_points env st = (Ok tt, register_all (ep_candidates env) st).
Proof.
  unfold _load_from_entry_points, ep_candidates, try_except at 1.
  unfold bind at 1. destruct (entry_points env) as [eps|msg]; [|done].
  cbn [of_outcome]. unfold ret at 1.
  rewrite <- register_all_omap. rewrite (for_each_total eps _
    (λ st ep, match match ep_load ep with
                    | Returns c => Some c
                    | Raises _ => None
                    end with
              | Some c => registration c st
              | None => st
              end)); [done|].
  intros ep st1. unfold try_except, bind.
  destruct (ep_load ep) as [c|msg]; cbn [of_outcome]; [|done].
  unfold ret at 1. by rewrite register_eq.
Qed.

Lemma directory_entry_eq e st :
  (if negb (is_dir e) then ret tt
   else if startswith "_"%char (de_name e) || startswith "."%char (de_name e)
   then ret tt
   else
     let plugin_module :=
       match plugin_py e with
       | Some f => Some f
       | None => init_py e
       end in
     match plugin_module with
     | None => ret tt
     | Some f =>
         try_except
           match f with
           | NoSpec => ret tt
           | ExecRaises msg => raise (Exception msg)
           | Loaded attrs => register_first attrs ("local:" +:+ de_name e)
           end
           (λ _, ret tt)
     end) st
  = (Ok tt, match dir_candidate e with
            | Some c => registration c st
            | None => st
            end).
Proof.
  unfold dir_candidate, visible.
  destruct (is_dir e); [|done]. cbn [negb andb].
  destruct (_ || _); [done|]. cbn [negb].
  destruct (plugin_py e) as [[|msg|attrs]|]; cbn zeta; unfold try_except;
    [done | done | by rewrite register_first_eq |].
  destruct (init_py e) as [[|msg|attrs]|];
    [done | done | by rewrite register_first_eq | done].
Qed.

Lemma directory_skips env st :
  scans env st = false → _load_from_directory env st = (Ok tt, st).
Proof.
  unfold scans, _load_from_directory. unfold bind at 1, gets at 1.
  destruct (truthy (_plugins_dir st)), (path_exists env); by intros.
Qed.

Lemma directory_raises env st msg :
  scans env st = true → iterdir env = Raises msg →
  _load_from_directory env st = (Err (Exception msg), st).
Proof.
  unfold scans, _load_from_directory. unfold bind at 1, gets at 1.
  destruct (truthy (_plugins_dir st)), (path_exists env); try done.
  intros _ Hi. cbn [negb orb]. unfold bind at 1. by rewrite Hi.
Qed.

Lemma directory_runs env st entries :
  scans env st = true → iterdir env = Returns entries →
  _load_from_directory env st
  = (Ok tt, register_all (dir_candidates entries) st).
Proof.
  unfold scans, _load_from_directory. unfold bind at 1, gets at 1.
  destruct (truthy (_plugins_dir st)), (path_exists env); try done.
  intros _ Hi. cbn [negb orb]. unfold bind at 1. rewrite Hi.
  cbn [of_outcome]. unfold ret at 1. unfold dir_candidates.
  rewrite <- register_all_omap.
  apply (for_each_total entries _
    (λ st e, match dir_candidate e with
             | Some c => registration c st
             | None => st
             end)).
  intros e st1. apply directory_entry_eq.
Qed.

Lemma scans_register_all env cs st :
  scans env (register_all cs st) = scans env st.
Proof.
  unfold scans. by destruct (register_all_fields cs st) as (_ & _ & ->).
Qed.

Lemma discover_eq env st :
  discover env st
  = if scans env st then
      match iterdir env with
      | Returns _ => (Ok tt, register_all (candidates env st) st)
      | Raises msg =>
          (Err (Exception msg), register_all (ep_candidates env) st)
      end
    else (Ok tt, register_all (candidates env st) st).
Proof.
  unfold discover, candidates. unfold bind at 1. rewrite entry_points_eq.
  unfold bind at 1, gets at 1.
  pose proof (scans_register_all env (ep_candidates env) st) as Hs.
  destruct (register_all_fields (ep_candidates env) st) as (_ & _ & Hd).
  rewrite Hd. destruct (scans env st) eqn:Hsc.
  - assert (truthy (_plugins_dir st) = true) as ->.
    { unfold scans in Hsc. by destruct (truthy (_plugins_dir st)). }
    destruct (iterdir env) as [entries|msg] eqn:Hi.
    + rewrite (directory_runs _ _ entries) by done.
      by rewrite register_all_app.
    + by rewrite (directory_raises _ _ msg).
  - rewrite app_nil_r. destruct (truthy (_plugins_dir st)); [|done].
    by rewrite directory_skips.
Qed.

Lemma init_all_ok st : (_init_all_plugins st).1 = Ok tt.
Proof.
  destruct (_app st) as [a|] eqn:Ha.
  - destruct (sort_terminates (_plugins st)) as [sorted Hs].
    by rewrite (init_all_eq a st sorted Ha Hs).
  - by rewrite init_all_unbound.
Qed.

Lemma load_all_eq env st :
  load_all env st
  = if scans env st then
      match iterdir env with
      | Returns _ => _init_all_plugins (register_all (candidates env st) st)
      | Raises msg =>
          (Err (Exception msg), register_all (ep_candidates env) st)
      end
    else _init_all_plugins (register_all (candidates env st) st).
Proof.
  rewrite load_all_discover. unfold bind. rewrite discover_eq.
  destruct (scans env st); [|done]. by destruct (iterdir env).
Qed.

(** X6.  The entry-point pass returns normally, whatever the enumeration and
    the entry points do.  It leaves the state obtained by registering, in
    order, the class of every entry point that loads; when the enumeration
    itself raises, nothing changes. *)
Theorem entry_points_pass env st :
  _load_from_entry_points env st = (Ok tt, register_all (ep_candidates env) st)
  ∧ (∀ msg, entry_points env = Raises msg →
       _load_from_entry_points env st = (Ok tt, st)).
Proof.
  split; [apply entry_points_eq|]. intros msg Hm.
  rewrite entry_points_eq. unfold ep_candidates. by rewrite Hm.
Qed.

(** X7.  An entry point that fails to load is skipped and the others are
    processed as if it were not there: the pass behaves exactly as on the
    list of entry points without the failing one. *)
Theorem entry_point_failure_isolated env st eps1 ep eps2 msg :
  entry_points env = Returns (eps1 ++ ep :: eps2) →
  ep_load ep = Raises msg →
  _load_from_entry_points env st
  = _load_from_entry_points
      {| entry_points := Returns (eps1 ++ eps2);
         path_exists := path_exists env;
         iterdir := iterdir env |} st.
Proof.
  intros He Hl. rewrite !entry_points_eq. unfold ep_candidates. simpl.
  rewrite He, !omap_app. simpl. by rewrite Hl.
Qed.

Lemma entry_point_failure_isolated_witness :
  _load_from_entry_points Fixtures.env_broken_ep Examples.discovered_AB
  = _load_from_entry_points
      {| entry_points := Returns (Fixtures.eps_before ++ Fixtures.eps_after);
         path_exists := path_exists Fixtures.env_broken_ep;
         iterdir := iterdir Fixtures.env_broken_ep |} Examples.discovered_AB.
Proof.
  apply (entry_point_failure_isolated Fixtures.env_broken_ep
           Examples.discovered_AB Fixtures.eps_before Fixtures.ep_broken
           Fixtures.eps_after "import error"); reflexivity.
Defined.

(** X8.  When the plugins directory is unset, the empty string, or does not
    exist, the directory pass returns normally and changes nothing. *)
Theorem directory_pass_skipped env st :
  truthy (_plugins_dir st) = false ∨ path_exists env = false →
  _load_from_directory env st = (Ok tt, st).
Proof.
  intros H. apply directory_skips. unfold scans.
  destruct H as [-> | ->]; [done | by destruct (truthy _)].
Qed.

Lemma directory_pass_skipped_witness :
  _load_from_directory Fixtures.env_messy (__init__ None (Some EmptyString))
  = (Ok tt, __init__ None (Some EmptyString)).
Proof.
  apply (directory_pass_skipped Fixtures.env_messy
           (__init__ None (Some EmptyString))).
  left. reflexivity.
Defined.

(** X9.  When the plugins directory can be listed, the directory pass returns
    normally, whatever the folders contain, and leaves the state obtained by
    registering, in listing order, the first plugin subclass of the module of
    each visible folder. *)
Theorem directory_pass_registers env st entries :
  truthy (_plugins_dir st) = true → path_exists env = true →
  iterdir env = Returns entries →
  _load_from_directory env st
  = (Ok tt, register_all (dir_candidates entries) st).
Proof.
  intros Ht Hp Hi. apply directory_runs; [|done]. unfold scans. by rewrite Ht, Hp.
Qed.

Lemma directory_pass_registers_witness :
  _load_from_directory Fixtures.env_messy Fixtures.with_dir
  = (Ok tt, register_all (dir_candidates Fixtures.messy_entries)
              Fixtures.with_dir).
Proof.
  apply (directory_pass_registers Fixtures.env_messy Fixtures.with_dir
           Fixtures.messy_entries); reflexivity.
Defined.

(** X10.  When listing the plugins directory raises, the directory pass
    raises the same exception and changes nothing; unlike a failing folder or
    entry point, this failure is not caught. *)
Theorem directory_listing_failure_propagates env st msg :
  truthy (_plugins_dir st) = true → path_exists env = true →
  iterdir env = Raises msg →
  _load_from_directory env st = (Err (Exception msg), st).
Proof.
  intros Ht Hp Hi. apply directory_raises; [|done]. unfold scans. by rewrite Ht, Hp.
Qed.

Lemma directory_listing_failure_propagates_witness :
  _load_from_directory Fixtures.env_unreadable Fixtures.with_dir
  = (Err (Exception "permission denied"), Fixtures.with_dir).
Proof.
  apply (directory_listing_failure_propagates Fixtures.env_unreadable
           Fixtures.with_dir "permission denied"); reflexivity.
Defined.

Lemma dir_candidates_visible entries :
  dir_candidates (filter (λ e, visible e = true) entries)
  = dir_candidates entries.
Proof.
  unfold dir_candidates. induction entries as [|e entries IH]; [done|].
  rewrite filter_cons. destruct (decide (visible e = true)) as [Hv|Hv].
  - csimpl. by rewrite IH.
  - csimpl. rewrite IH. unfold dir_candidate.
    by destruct (visible e).
Qed.

(** X11.  Entries of the plugins directory that are not folders, and folders
    whose name starts with an underscore or a dot, play no part: the
    directory pass behaves exactly as on the listing without them. *)
Theorem directory_ignores_hidden env st entries :
  iterdir env = Returns entries →
  _load_from_directory env st
  = _load_from_directory
      {| entry_points := entry_points env;
         path_exists := path_exists env;
         iterdir := Returns (filter (λ e, visible e = true) entries) |} st.
Proof.
  intros Hi. destruct (scans env st) eqn:Hs.
  - rewrite (directory_runs env st entries) by done.
    rewrite (directory_runs _ st (filter (λ e, visible e = true) entries))
      by done.
    by rewrite dir_candidates_visible.
  - by rewrite !directory_skips.
Qed.

Lemma directory_ignores_hidden_witness :
  _load_from_directory Fixtures.env_messy Fixtures.with_dir
  = _load_from_directory
      {| entry_points := entry_points Fixtures.env_messy;
         path_exists := path_exists Fixtures.env_messy;
         iterdir := Returns (filter (λ e, visible e = true)
                               Fixtures.messy_entries) |} Fixtures.with_dir.
Proof.
  apply (directory_ignores_hidden Fixtures.env_messy Fixtures.with_dir
           Fixtures.messy_entries).
  reflexivity.
Defined.

(** X12.  In a folder that has a [plugin.py], the [__init__.py] is never
    consulted, not even when [plugin.py] fails to load: changing or removing
    the [__init__.py] of such folders does not change what the directory
    pass does. *)
Theorem directory_prefers_plugin_py env st entries entries' :
  iterdir env = Returns entries →
  Forall2 (λ e e', de_name e' = de_name e ∧ is_dir e' = is_dir e
                   ∧ plugin_py e' = plugin_py e
                   ∧ (plugin_py e = None → init_py e' = init_py e))
          entries entries' →
  _load_from_directory env st
  = _load_from_directory
      {| entry_points := entry_points env;
         path_exists := path_exists env;
         iterdir := Returns entries' |} st.
Proof.
  intros Hi Hf. destruct (scans env st) eqn:Hs.
  - rewrite (directory_runs env st entries) by done.
    rewrite (directory_runs _ st entries') by done.
    f_equal. f_equal. unfold dir_candidates. clear Hi.
    induction Hf as [|e e' es es' (Hn & Hd & Hp & Hinit) _ IH]; [done|].
    csimpl. rewrite IH.
    assert (dir_candidate e' = dir_candidate e) as ->; [|done].
    unfold dir_candidate, visible. rewrite Hn, Hd, Hp.
    destruct (plugin_py e); [done|]. by rewrite Hinit by done.
  - by rewrite !directory_skips.
Qed.

Lemma directory_prefers_plugin_py_witness :
  _load_from_directory Fixtures.env_messy Fixtures.with_dir
  = _load_from_directory
      {| entry_points := entry_points Fixtures.env_messy;
         path_exists := path_exists Fixtures.env_messy;
         iterdir := Returns Fixtures.messy_entries' |} Fixtures.with_dir.
Proof.
  apply (directory_prefers_plugin_py Fixtures.env_messy Fixtures.with_dir
           Fixtures.messy_entries Fixtures.messy_entries').
  - reflexivity.
  - repeat constructor; discriminate.
Defined.

(** ** [load_all] as a whole *)

Lemma init_all_loader_fields st :
  _plugins (_init_all_plugins st).2 = _plugins st
  ∧ _app (_init_all_plugins st).2 = _app st
  ∧ _disabled_plugins (_init_all_plugins st).2 = _disabled_plugins st
  ∧ _plugins_dir (_init_all_plugins st).2 = _plugins_dir st.
Proof.
  destruct (_app st) as [a|] eqn:Ha.
  - destruct (sort_terminates (_plugins st)) as [sorted Hs].
    rewrite (init_all_eq a st sorted Ha Hs). simpl.
    destruct (init_fold_fields a sorted st) as (-> & -> & -> & -> & _).
    by rewrite Ha.
  - by rewrite init_all_unbound.
Qed.

Lemma get_prefix {V} (d d' : dict V) k v :
  d `prefix_of` d' → get k d = Some v → get k d' = Some v.
Proof.
  intros [suffix ->]. induction d as [|[k' v'] d IH]; simpl; [done|].
  case_decide; auto.
Qed.

Lemma registration_prefix c st :
  _plugins st `prefix_of` _plugins (registration c st).
Proof.
  rewrite registration_plugins. case_decide as Ha; [|done].
  rewrite set_fresh; [by eexists|].
  destruct Ha as (_ & _ & Hm & _). unfold mem in Hm.
  by destruct (get (name c) (_plugins st)).
Qed.

Lemma register_all_prefix cs st :
  _plugins st `prefix_of` _plugins (register_all cs st).
Proof.
  revert st. induction cs as [|c cs IH]; intros st; [done|].
  change (register_all (c :: cs) st) with (register_all cs (registration c st)).
  etrans; [apply registration_prefix | apply IH].
Qed.

Lemma accepted_ext c st st' :
  _plugins st' = _plugins st → _disabled_plugins st' = _disabled_plugins st →
  accepted c st' → accepted c st.
Proof. unfold accepted. by intros -> ->. Qed.

Lemma register_all_stays_settled c cs st :
  ¬ accepted c st → ¬ accepted c (register_all cs st).
Proof.
  revert st. induction cs as [|c' cs IH]; intros st Hn; [done|].
  change (register_all (c' :: cs) st) with (register_all cs (registration c' st)).
  by apply IH, registration_stays_settled.
Qed.

Lemma register_all_settles cs st c :
  c ∈ cs → ¬ accepted c (register_all cs st).
Proof.
  revert st. induction cs as [|c' cs IH]; intros st Hin.
  - by apply elem_of_nil in Hin.
  - change (register_all (c' :: cs) st)
      with (register_all cs (registration c' st)).
    apply elem_of_cons in Hin as [->|Hin]; [|by apply IH].
    apply register_all_stays_settled, registration_settles.
Qed.

Lemma register_all_settled cs st :
  (∀ c, c ∈ cs → ¬ accepted c st) →
  _plugins (register_all cs st) = _plugins st.
Proof.
  revert st. induction cs as [|c cs IH]; intros st Hn; [done|].
  change (register_all (c :: cs) st) with (register_all cs (registration c st)).
  rewrite IH.
  - apply registration_rejected, Hn. by left.
  - intros c' Hc'. apply registration_stays_settled, Hn. by right.
Qed.

(** X13.  [load_all] returns normally unless listing the plugins directory
    raises; it then has registered the candidates of the entry points, then
    those of the directory, and run the initialization pass on the result. *)
Theorem load_all_returns env st :
  scans env st = false ∨ (∃ entries, iterdir env = Returns entries) →
  (load_all env st).1 = Ok tt
  ∧ load_all env st = _init_all_plugins (register_all (candidates env st) st).
Proof.
  intros H.
  assert (load_all env st
          = _init_all_plugins (register_all (candidates env st) st)) as ->.
  { rewrite load_all_eq. destruct (scans env st); [|done].
    destruct H as [?|[entries ->]]; done. }
  split; [apply init_all_ok | done].
Qed.

Lemma load_all_returns_witness :
  (load_all Fixtures.env_messy Fixtures.with_dir).1 = Ok tt
  ∧ load_all Fixtures.env_messy Fixtures.with_dir
    = _init_all_plugins
        (register_all (candidates Fixtures.env_messy Fixtures.with_dir)
           Fixtures.with_dir).
Proof.
  apply (load_all_returns Fixtures.env_messy Fixtures.with_dir).
  right. exists Fixtures.messy_entries. reflexivity.
Defined.

(** X14.  When the plugins directory is set and exists but listing it
    raises, [load_all] raises that exception after the entry-point pass: the
    plugins of the entry points are registered, and the initialization pass
    does not run. *)
Theorem load_all_listing_failure env st msg :
  scans env st = true → iterdir env = Raises msg →
  load_all env st = (Err (Exception msg), register_all (ep_candidates env) st).
Proof. intros Hs Hi. by rewrite load_all_eq, Hs, Hi. Qed.

Lemma load_all_listing_failure_witness :
  load_all Fixtures.env_unreadable Fixtures.with_dir
  = (Err (Exception "permission denied"),
     register_all (ep_candidates Fixtures.env_unreadable) Fixtures.with_dir).
Proof.
  apply (load_all_listing_failure Fixtures.env_unreadable Fixtures.with_dir
           "permission denied"); reflexivity.
Defined.

Lemma load_all_prefix env st :
  _plugins st `prefix_of` _plugins (load_all env st).2.
Proof.
  rewrite load_all_eq.
  assert (_plugins st `prefix_of`
          _plugins (_init_all_plugins (register_all (candidates env st) st)).2).
  { destruct (init_all_loader_fields (register_all (candidates env st) st))
      as (-> & _). apply register_all_prefix. }
  destruct (scans env st); [|done].
  destruct (iterdir env); [done|]. apply register_all_prefix.
Qed.

(** X15.  [load_all] only appends to the registry: the entries present
    before are the first entries afterwards, in the same order and with the
    same instances, so a plugin found under a name before is still the one
    found under that name. *)
Theorem load_all_only_appends env st :
  _plugins st `prefix_of` _plugins (load_all env st).2
  ∧ ∀ nm p, get_plugin st nm = Some p →
            get_plugin (load_all env st).2 nm = Some p.
Proof.
  split; [apply load_all_prefix|]. intros nm p.
  apply get_prefix, load_all_prefix.
Qed.

(** X16.  Calling [load_all] again with the same environment leaves the
    registry as the first call left it. *)
Theorem load_all_twice env st :
  _plugins (load_all env (load_all env st).2).2
  = _plugins (load_all env st).2.
Proof.
  assert (∀ cs st1,
            _plugins st1 = _plugins (register_all cs st) →
            _disabled_plugins st1 = _disabled_plugins (register_all cs st) →
            ∀ cs', cs' ⊆ cs →
            _plugins (register_all cs' st1) = _plugins st1) as Hsettled.
  { intros cs st1 Hp Hd cs' Hsub. apply register_all_settled.
    intros c Hc Ha. apply (register_all_settles cs st c); [by apply Hsub|].
    by apply (accepted_ext c _ st1). }
  pose proof (init_all_loader_fields
                (register_all (candidates env st) st)) as (Hp & _ & Hd & Hdir).
  destruct (register_all_fields (candidates env st) st) as (_ & _ & Hdir').
  destruct (register_all_fields (ep_candidates env) st) as (_ & _ & Hdir'').
  assert (∀ st1, (load_all env st).2 = st1 →
            _plugins_dir st1 = _plugins_dir st →
            (_plugins st1 = _plugins (register_all (candidates env st) st)
             ∧ _disabled_plugins st1
               = _disabled_plugins (register_all (candidates env st) st))
            ∨ (scans env st = true
               ∧ (∃ msg, iterdir env = Raises msg)
               ∧ st1 = register_all (ep_candidates env) st) →
            _plugins (load_all env st1).2 = _plugins st1) as Hsecond.
  { intros st1 _ Hdir1 Hcase.
    assert (scans env st1 = scans env st) as Hsc.
    { unfold scans. by rewrite Hdir1. }
    assert (candidates env st1 = candidates env st) as Hc.
    { unfold candidates. by rewrite Hsc. }
    rewrite load_all_eq, Hsc, Hc.
    destruct Hcase as [[Hp1 Hd1]|(Hs & [msg Hi] & ->)].
    - assert (_plugins (_init_all_plugins
                          (register_all (candidates env st) st1)).2
              = _plugins st1) as Hinit.
      { destruct (init_all_loader_fields
                    (register_all (candidates env st) st1)) as (-> & _).
        by apply (Hsettled (candidates env st)). }
      destruct (scans env st); [|done].
      destruct (iterdir env); [done|]. simpl.
      apply (Hsettled (candidates env st)); [done | done |].
      unfold candidates. set_solver.
    - rewrite Hs, Hi. simpl.
      apply (Hsettled (ep_candidates env)); done. }
  apply Hsecond; [done| |].
  - rewrite load_all_eq. destruct (scans env st); [|by rewrite Hdir].
    destruct (iterdir env); [by rewrite Hdir | done].
  - rewrite load_all_eq. destruct (scans env st) eqn:Hs; [|by left].
    destruct (iterdir env) as [entries|msg] eqn:Hi; [by left|].
    right. eauto.
Qed.





(** ** The orderer on a registry that is already in order *)

Section sort_ordered.
Variable plugins : dict plugin_ref.


End sort_ordered.



(** ** The initialization pass, the health check and unloading, again *)

(** X19.  The initialization pass keeps no record of what it has done: run
    a second time, it calls [init_app] on every registered plugin once more,
    in the same order as the first time. *)
Theorem init_pass_repeats st a :
  _app st = Some a →
  ∃ sorted st1 st2,
    _sort_by_dependencies (_plugins st) = Some sorted
    ∧ _init_all_plugins st = (Ok tt, st1)
    ∧ _init_all_plugins st1 = (Ok tt, st2)
    ∧ trace st2
      = trace st ++ ((λ p, CallInitApp (ref_id p) a) <$> sorted)
                 ++ ((λ p, CallInitApp (ref_id p) a) <$> sorted).
Proof.
  intros Ha. destruct (sort_terminates (_plugins st)) as [sorted Hs].
  destruct (init_fold_fields a sorted st) as (Hp & Ha1 & _ & _ & _ & Ht).
  destruct (init_fold_fields a sorted (foldl (init_one a) st sorted))
    as (_ & _ & _ & _ & _ & Ht2).
  eexists sorted, _, _. split; [done|].
  split; [by apply init_all_eq|]. split.
  - apply init_all_eq; [by rewrite Ha1 | by rewrite Hp].
  - by rewrite Ht2, Ht, <- app_assoc.
Qed.

Lemma init_pass_repeats_witness :
  ∃ sorted st1 st2,
    _sort_by_dependencies (_plugins Examples.discovered_CAB) = Some sorted
    ∧ _init_all_plugins Examples.discovered_CAB = (Ok tt, st1)
    ∧ _init_all_plugins st1 = (Ok tt, st2)
    ∧ trace st2
      = trace Examples.discovered_CAB
        ++ ((λ p, CallInitApp (ref_id p) Examples.plain_app) <$> sorted)
        ++ ((λ p, CallInitApp (ref_id p) Examples.plain_app) <$> sorted).
Proof.
  apply (init_pass_repeats Examples.discovered_CAB Examples.plain_app).
  reflexivity.
Defined.



(** X21.  [healthcheck] calls the health hook of every registered plugin
    exactly once, in registry order, enabled or not, and calls nothing else;
    the keys of the result are the keys of the registry, in the same
    order. *)
Theorem healthcheck_in_registry_order st :
  NoDup (keys (_plugins st)) →
  ∃ results st',
    healthcheck st = (Ok results, st')
    ∧ keys results = keys (_plugins st)
    ∧ trace st'
      = trace st ++ ((λ p, CallHealthcheck (ref_id p)) <$> values (_plugins st)).
Proof.
  intros Hnd. unfold healthcheck. unfold bind at 1, gets at 1.
  rewrite healthcheck_loop_eq. eexists _, _. split; [done|]. split.
  - assert (∀ (l : dict plugin_ref) (acc : dict payload),
              NoDup (keys acc ++ keys l) →
              keys (foldl (λ results (e : string * plugin_ref),
                             set e.1 (health_status e.2) results) acc l)
              = keys acc ++ keys l) as Hfold.
    { induction l as [|[k p] l IH]; intros acc Hn.
      - by rewrite app_nil_r.
      - cbn [foldl fst snd].
        change (keys ((k, p) :: l)) with (k :: keys l) in *.
        assert (get k acc = None) as Hk.
        { apply get_None_keys. intros Hin.
          apply NoDup_app in Hn as (_ & Hdisj & _). apply (Hdisj k Hin). by left. }
        rewrite IH; rewrite (set_fresh _ _ _ Hk); unfold keys;
          rewrite fmap_app; simpl; by rewrite <- app_assoc. }
    by rewrite Hfold.
  - generalize (_plugins st). intros l. generalize st. clear.
    induction l as [|[k p] l IH]; intros st.
    + simpl. by rewrite app_nil_r.
    + cbn [foldl]. rewrite IH. cbn. by rewrite <- app_assoc.
Qed.

Lemma healthcheck_in_registry_order_witness :
  ∃ results st',
    healthcheck Fixtures.loaded_AB = (Ok results, st')
    ∧ keys results = keys (_plugins Fixtures.loaded_AB)
    ∧ trace st'
      = trace Fixtures.loaded_AB
        ++ ((λ p, CallHealthcheck (ref_id p))
              <$> values (_plugins Fixtures.loaded_AB)).
Proof.
  apply (healthcheck_in_registry_order Fixtures.loaded_AB).
  apply (bool_decide_unpack _). vm_compute. exact I.
Defined.

Lemma distinct_objects (d : dict plugin_ref) k q nm p :
  NoDup (ref_id <$> values d) → (k, q) ∈ d → (nm, p) ∈ d → k ≠ nm →
  ref_id q ≠ ref_id p.
Proof.
  intros Hnd Hq Hp Hne Heq.
  apply list_elem_of_lookup in Hq as [i Hi].
  apply list_elem_of_lookup in Hp as [j Hj].
  assert (i = j) as ->.
  { eapply NoDup_lookup; [exact Hnd| |].
    - unfold values. by rewrite !list_lookup_fmap, Hi.
    - unfold values. rewrite !list_lookup_fmap, Hj. simpl. by rewrite Heq. }
  congruence.
Qed.






(** ** Menu contributions *)

Lemma menu_fold (h : plugin_ref → outcome (list menu_item))
    (l : list plugin_ref) (acc : list menu_item) st :
  Forall (λ p, ∃ items, h p = Returns items) l →
  for_fold l acc (λ items plugin,
    r <- of_outcome (h plugin) ;; ret (items ++ r)) st
  = (Ok (acc ++ flat_map (λ p, match h p with
                               | Returns items => items
                               | Raises _ => []
                               end) l), st).
Proof.
  intros Hl. revert acc. induction Hl as [|p l [items Hp] _ IH]; intros acc.
  - simpl. by rewrite app_nil_r.
  - assert ((r <- of_outcome (h p) ;; ret (acc ++ r)) st
            = (Ok (acc ++ items), st)) as Hbody.
    { unfold bind. by rewrite Hp. }
    cbn [for_fold flat_map]. unfold bind at 1. rewrite Hbody.
    rewrite IH. cbn beta. rewrite Hp. by rewrite app_assoc.
Qed.

Lemma menu_fold_raises (h : plugin_ref → outcome (list menu_item))
    (pre : list plugin_ref) p post msg (acc : list menu_item) st :
  Forall (λ p, ∃ items, h p = Returns items) pre →
  h p = Raises msg →
  for_fold (pre ++ p :: post) acc (λ items plugin,
    r <- of_outcome (h plugin) ;; ret (items ++ r)) st
  = (Err (Exception msg), st).
Proof.
  intros Hpre Hp. revert acc.
  induction Hpre as [|q pre [items Hq] _ IH]; intros acc.
  - change ([] ++ p :: post) with (p :: post).
    cbn [for_fold]. unfold bind. by rewrite Hp.
  - assert ((r <- of_outcome (h q) ;; ret (acc ++ r)) st
            = (Ok (acc ++ items), st)) as Hbody.
    { unfold bind. by rewrite Hq. }
    change ((q :: pre) ++ p :: post) with (q :: (pre ++ p :: post)).
    cbn [for_fold]. unfold bind at 1. rewrite Hbody. apply IH.
Qed.

(** X24.  When the [get_menu_items] of every active plugin returns,
    [get_all_menu_items] returns the concatenation of their lists, one
    plugin after the other in the order of [get_all_plugins], and changes
    nothing.  Plugins that are not enabled are not asked, so what their
    [get_menu_items] would do does not matter. *)
Theorem menu_items_concatenated h st :
  Forall (λ p, ∃ items, h p = Returns items) (get_all_plugins st) →
  get_all_menu_items h st
  = (Ok (flat_map (λ p, match h p with
                        | Returns items => items
                        | Raises _ => []
                        end) (get_all_plugins st)), st).
Proof.
  intros Hall. unfold get_all_menu_items. unfold bind at 1, gets at 1.
  by rewrite menu_fold.
Qed.

Lemma menu_items_concatenated_witness :
  get_all_menu_items Fixtures.menus Fixtures.loaded_XY
  = (Ok (flat_map (λ p, match Fixtures.menus p with
                        | Returns items => items
                        | Raises _ => []
                        end)
           (get_all_plugins Fixtures.loaded_XY)),
     Fixtures.loaded_XY).
Proof.
  apply (menu_items_concatenated Fixtures.menus Fixtures.loaded_XY).
  vm_compute. repeat constructor; eexists; reflexivity.
Defined.

(** X25.  A failure of [get_menu_items] is not isolated: when the hook of an
    active plugin raises and those of the active plugins before it return,
    [get_all_menu_items] raises that exception. *)
Theorem menu_items_failure_propagates h st pre p post msg :
  get_all_plugins st = pre ++ p :: post →
  Forall (λ p, ∃ items, h p = Returns items) pre →
  h p = Raises msg →
  get_all_menu_items h st = (Err (Exception msg), st).
Proof.
  intros Hs Hpre Hp. unfold get_all_menu_items. unfold bind at 1, gets at 1.
  rewrite Hs. by apply menu_fold_raises.
Qed.

Lemma menu_items_failure_propagates_witness :
  get_all_menu_items Fixtures.menus_B_fails Fixtures.loaded_AB
  = (Err (Exception "no menu"), Fixtures.loaded_AB).
Proof.
  apply (menu_items_failure_propagates Fixtures.menus_B_fails
           Fixtures.loaded_AB []
           {| ref_id := 1; ref_class := subclass "B" "1.0" [] |} [] "no menu").
  - reflexivity.
  - constructor.
  - reflexivity.
Defined.

Lemma menu_state h st : (get_all_menu_items h st).2 = st.
Proof.
  unfold get_all_menu_items. unfold bind at 1, gets at 1.
  generalize (get_all_plugins st). intros l. generalize ([] : list menu_item).
  induction l as [|p l IH]; intros acc; [done|].
  assert (((r <- of_outcome (h p) ;; ret (acc ++ r)) st).2 = st)
    as Hst.
  { unfold bind. by destruct (h p). }
  cbn [for_fold]. unfold bind at 1.
  destruct ((r <- of_outcome (h p) ;; ret (acc ++ r)) st)
    as [[a|e] st1]; simpl in Hst; subst st1; [apply IH | done].
Qed.

(** ** Invariants of the reachable states *)

Section entry_invariants.
Variable Q : plugin_class → instance → Prop.
Hypothesis Q_fresh : ∀ c, Q c fresh.

Local Abbreviation entries := (λ st : state,
  Forall (λ e : string * plugin_ref,
            ∃ o, heap st !! ref_id e.2 = Some o ∧ Q (ref_class e.2) o)
         (_plugins st)).

Lemma entries_same st st' :
  _plugins st' = _plugins st → heap st' = heap st → entries st → entries st'.
Proof. intros Hp Hh He. cbn beta in *. by rewrite Hp, Hh. Qed.

Lemma entries_registration c st : entries st → entries (registration c st).
Proof.
  intros He. cbn beta in *.
  assert (Forall (λ e : string * plugin_ref,
            ∃ o, heap (registration c st) !! ref_id e.2 = Some o
                 ∧ Q (ref_class e.2) o) (_plugins st)) as He'.
  { eapply Forall_impl; [exact He|]. intros e (o & Ho & HQ).
    exists o. split; [by apply registration_heap_lookup | done]. }
  rewrite registration_plugins. case_decide as Ha; [|done].
  apply Forall_set; [done|]. exists fresh. split; [|apply Q_fresh].
  rewrite registration_accepted by done. cbn. by rewrite list_lookup_middle.
Qed.

Lemma entries_unload nm st : wf st → entries st → entries (unload_plugin nm st).2.
Proof.
  intros (Hk & Hids & _) He. cbn beta in *.
  destruct (get nm (_plugins st)) as [p|] eqn:Hg.
  - destruct (on_unload (ref_class p)) as [[]|msg] eqn:Hu.
    + rewrite (unload_done st nm p Hg Hu). cbn -[remove].
      apply Forall_forall. intros [k q] Hin.
      apply list_elem_of_filter in Hin as [Hne Hin]. simpl in Hne.
      destruct (proj1 (Forall_forall _ _) He _ Hin) as (o & Ho & HQ).
      exists o. split; [|done]. simpl in *.
      rewrite list_lookup_alter_ne; [done|]. intros Heq.
      eapply (distinct_objects (_plugins st) k q nm p);
        eauto using get_Some_elem.
    + by rewrite (unload_failing st nm p msg Hg Hu).
  - by rewrite (unload_absent st nm Hg).
Qed.

Lemma entries_init st :
  (∀ a c o, Q c o → Q c (initialized a c o)) →
  wf st → entries st → entries (_init_all_plugins st).2.
Proof.
  intros HQ (Hk & Hids & _) He. cbn beta in *.
  destruct (_app st) as [a|] eqn:Ha.
  - destruct (sort_terminates (_plugins st)) as [sorted Hs].
    pose proof (sort_permutation _ _ Hk Hs) as Hperm.
    rewrite (init_all_eq a st sorted Ha Hs). simpl.
    destruct (init_fold_fields a sorted st) as (-> & _).
    apply Forall_forall. intros [k p] Hin.
    destruct (proj1 (Forall_forall _ _) He _ Hin) as (o & Ho & HQo).
    simpl in *. exists (initialized a (ref_class p) o). split; [|by apply HQ].
    rewrite init_fold_heap; [by rewrite Ho | by rewrite Hperm |].
    rewrite Hperm. apply list_elem_of_fmap. by exists (k, p).
  - by rewrite init_all_unbound.
Qed.

Lemma entries_load_all env st :
  (∀ a c o, Q c o → Q c (initialized a c o)) →
  wf st → entries st → entries (load_all env st).2.
Proof.
  intros HQ Hwf He. rewrite load_all_discover. unfold bind.
  pose proof (preserves_discover wf wf_registration env st Hwf) as Hwf1.
  pose proof (preserves_discover entries entries_registration env st He) as He1.
  destruct (discover env st) as [[[]|e] st1]; [|done].
  by apply entries_init.
Qed.
End entry_invariants.

Lemma pristine_entries st :
  pristine st
  ↔ Forall (λ e : string * plugin_ref,
              ∃ o, heap st !! ref_id e.2 = Some o
                   ∧ (_enabled o = true ∧ ExpotionPlugin._app o = None))
           (_plugins st).
Proof.
  unfold pristine, enabled, app. split; intros H;
    (eapply Forall_impl; [exact H|]); intros e; simpl.
  - destruct (heap st !! ref_id e.2) as [o|]; [eauto | by intros [? _]].
  - by intros (o & -> & ?).
Qed.

Lemma health_log_fields (l : dict plugin_ref) st :
  _plugins (foldl (λ st (e : string * plugin_ref),
              log_call (CallHealthcheck (ref_id e.2)) st) st l) = _plugins st
  ∧ heap (foldl (λ st (e : string * plugin_ref),
              log_call (CallHealthcheck (ref_id e.2)) st) st l) = heap st
  ∧ _app (foldl (λ st (e : string * plugin_ref),
              log_call (CallHealthcheck (ref_id e.2)) st) st l) = _app st.
Proof.
  revert st. induction l as [|e l IH]; intros st; [done|].
  cbn [foldl]. destruct (IH (log_call (CallHealthcheck (ref_id e.2)) st))
    as (-> & -> & ->). done.
Qed.

Lemma healthcheck_state st :
  _plugins (healthcheck st).2 = _plugins st
  ∧ heap (healthcheck st).2 = heap st
  ∧ _app (healthcheck st).2 = _app st.
Proof.
  assert ((healthcheck st).2
          = foldl (λ st (e : string * plugin_ref),
                     log_call (CallHealthcheck (ref_id e.2)) st)
              st (_plugins st)) as ->.
  { unfold healthcheck. unfold bind at 1, gets at 1.
    by rewrite healthcheck_loop_eq. }
  apply health_log_fields.
Qed.

Lemma unload_app nm st : _app (unload_plugin nm st).2 = _app st.
Proof.
  destruct (get nm (_plugins st)) as [p|] eqn:Hg.
  - destruct (on_unload (ref_class p)) as [[]|msg] eqn:Hu.
    + by rewrite (unload_done st nm p Hg Hu).
    + by rewrite (unload_failing st nm p msg Hg Hu).
  - by rewrite (unload_absent st nm Hg).
Qed.

Lemma load_all_app env st : _app (load_all env st).2 = _app st.
Proof.
  rewrite load_all_eq.
  assert (_app (_init_all_plugins (register_all (candidates env st) st)).2
          = _app st) as Hi.
  { destruct (init_all_loader_fields (register_all (candidates env st) st))
      as (_ & -> & _). apply register_all_fields. }
  destruct (scans env st); [|done]. destruct (iterdir env); [done|].
  apply register_all_fields.
Qed.

Lemma load_all_unbound_pristine env st :
  _app st = None → pristine st → pristine (load_all env st).2.
Proof.
  intros Ha Hp.
  destruct (unbound_discover (trace st) env st) as (Ha' & Hp' & _).
  { split; [done|]. split; [done|]. exists []. by rewrite app_nil_r. }
  rewrite load_all_discover. unfold bind.
  destruct (discover env st) as [[[]|e] st1]; [|done].
  by rewrite init_all_unbound.
Qed.

Lemma reachable_invariants st :
  reachable st →
  wf st
  ∧ Forall (λ e : string * plugin_ref,
              ∃ o, heap st !! ref_id e.2 = Some o
                   ∧ (_enabled o = true
                      ∨ ∃ msg, ExpotionPlugin.init_app (ref_class e.2)
                               = Raises msg))
           (_plugins st)
  ∧ (_app st = None → pristine st).
Proof.
  induction 1 as [a d|a st _ (Hwf & Hs & Hp)|env st _ (Hwf & Hs & Hp)
                 |nm st _ (Hwf & Hs & Hp)|st _ (Hwf & Hs & Hp)
                 |h st _ (Hwf & Hs & Hp)].
  - split; [apply wf_new|].
    assert (_plugins (__init__ a d) = []) as Hnil by (by destruct a).
    unfold pristine. rewrite Hnil. by split; [|intros _]; constructor.
  - split; [|split; [done|done]]. exact Hwf.
  - split; [by apply wf_load_all|]. split.
    + apply (entries_load_all
               (λ c o, _enabled o = true
                       ∨ ∃ msg, ExpotionPlugin.init_app c = Raises msg));
        [by left| |done|done].
      intros a c o HQ. unfold initialized. simpl.
      destruct (ExpotionPlugin.init_app c) as [[]|msg]; [|eauto].
      destruct HQ as [?|[msg ?]]; [by left | done].
    + rewrite load_all_app. intros Ha.
      by apply load_all_unbound_pristine; [|apply Hp].
  - split; [by apply wf_unload|]. split.
    + by apply (entries_unload
                  (λ c o, _enabled o = true
                          ∨ ∃ msg, ExpotionPlugin.init_app c = Raises msg)).
    + rewrite unload_app. intros Ha. apply pristine_entries.
      apply (entries_unload
               (λ c o, _enabled o = true ∧ ExpotionPlugin._app o = None));
        [done|]. by apply pristine_entries, Hp.
  - destruct (healthcheck_state st) as (Hpl & Hh & Ha).
    unfold wf, keyed_by_name, pristine, enabled, app in *.
    rewrite Hpl, Hh, Ha. done.
  - by rewrite menu_state.
Qed.

(** X26.  Every state the loader reaches through its constructor,
    [init_app], [load_all], [unload_plugin], [healthcheck] and
    [get_all_menu_items] is well formed: the registry has one entry per key,
    each entry is keyed by the name of its plugin, and the entries are
    distinct allocated objects. *)
Theorem reachable_well_formed st : reachable st → wf st.
Proof. intros Hr. by destruct (reachable_invariants st Hr). Qed.

Lemma reachable_well_formed_witness : wf Fixtures.loaded_AB.
Proof.
  apply (reachable_well_formed Fixtures.loaded_AB).
  exact (reach_load_all _ _ (reach_new _ _)).
Defined.

(** X27.  As long as no application is bound to the loader, every
    registered plugin is enabled and has no application, so
    [get_all_plugins] returns all registered plugins, in registry order. *)
Theorem reachable_unbound_all_active st :
  reachable st → _app st = None →
  pristine st ∧ get_all_plugins st = values (_plugins st).
Proof.
  intros Hr Ha. destruct (reachable_invariants st Hr) as (_ & _ & Hp).
  specialize (Hp Ha). split; [done|].
  unfold get_all_plugins, pristine, values in *.
  induction Hp as [|e l [He _] _ IH]; [done|].
  rewrite fmap_cons, filter_cons. rewrite decide_True by done. by rewrite IH.
Qed.

Lemma reachable_unbound_all_active_witness :
  let st := (unload_plugin "X"
               (load_all Examples.env_XY (__init__ None (Some "plugins"))).2).2 in
  pristine st ∧ get_all_plugins st = values (_plugins st).
Proof.
  apply (reachable_unbound_all_active
           (unload_plugin "X"
              (load_all Examples.env_XY (__init__ None (Some "plugins"))).2).2).
  - exact (reach_unload _ _ (reach_load_all _ _ (reach_new _ _))).
  - reflexivity.
Defined.

(** X28.  In every reachable state a registered plugin is disabled only if
    its [init_app] raises: the loader clears the flag of a plugin only when
    its [init_app] has raised or when it unloads it, and an unloaded plugin
    is no longer registered. *)
Theorem reachable_disabled_only_after_failed_init st nm p :
  reachable st → get_plugin st nm = Some p → enabled st p = false →
  ∃ msg, ExpotionPlugin.init_app (ref_class p) = Raises msg.
Proof.
  intros Hr Hget Hen. destruct (reachable_invariants st Hr) as (_ & Hs & _).
  apply get_Some_elem in Hget.
  destruct (proj1 (Forall_forall _ _) Hs _ Hget) as (o & Ho & [Ht|Hm]); [|done].
  unfold enabled in Hen. simpl in Ho. rewrite Ho in Hen. congruence.
Qed.

Lemma reachable_disabled_only_after_failed_init_witness :
  ∃ msg, ExpotionPlugin.init_app (Examples.failing_init "A") = Raises msg.
Proof.
  apply (reachable_disabled_only_after_failed_init Fixtures.loaded_AB "A"
           {| ref_id := 0; ref_class := Examples.failing_init "A" |}).
  - exact (reach_load_all _ _ (reach_new _ _)).
  - reflexivity.
  - reflexivity.
Defined.


